(** * FINBOT: the numeric core of the personal-finance assistant

    A shallow embedding of the calculators, the portfolio recommendation and
    the budget summary of the [PFCB] package, with the properties the
    specification states about them.

    Numbers.  The Python code computes on [float]s and [int]s.  Integers
    ([years], [loan_term], [age], the loop counters) are [Z].  Floats are
    idealised as exact rationals [Q]: every arithmetic operator is the exact
    one, so rounding, overflow and NaN are outside the model.  Equality of
    amounts is therefore [Qeq] ([==]), the equality of rationals as numbers.
    What Python raises is kept: true division by zero and a zero base under a
    negative exponent raise [ZeroDivisionError], a missing dictionary key
    raises [KeyError].

    Presentation.  Streamlit widgets, charts and formatted strings are not
    modelled; a function that reads its inputs from widgets takes them as
    arguments, and a function that renders a table or a chart returns the
    numbers it renders. *)

From Stdlib Require Import ZArith QArith Qpower Qabs Lqa Lia List.
From stdpp Require Import gmap strings.

Local Open Scope Z_scope.
Local Open Scope Q_scope.

(** ** Python values and exceptions *)

Module Py.

Inductive exn : Type :=
| ZeroDivisionError
| KeyError (key : string).

Inductive result (A : Type) : Type :=
| Ok (a : A)
| Raise (e : exn).

Arguments Ok {A} a.
Arguments Raise {A} e.

(** An exception ends the computation: the rest is skipped. *)
Definition bind {A B : Type} (k : A -> result B) (c : result A) : result B :=
  match c with
  | Ok a => k a
  | Raise e => Raise e
  end.

#[global] Instance result_bind : MBind result := @bind.
#[global] Instance result_ret : MRet result := @Ok.

(** [x / y] on floats. *)
Definition truediv (x y : Q) : result Q :=
  if Qeq_bool y 0 then Raise ZeroDivisionError else Ok (x / y).

(** [x ** n] for a float [x] and an int [n]. *)
Definition pow (x : Q) (n : Z) : result Q :=
  if Qeq_bool x 0 && (n <? 0)%Z then Raise ZeroDivisionError else Ok (x ^ n).

(** [x > y] and [x <= y]. *)
Definition gt (x y : Q) : bool := negb (Qle_bool x y).
Definition le (x y : Q) : bool := Qle_bool x y.

(** [range(start, stop)]. *)
Definition range (start stop : Z) : list Z :=
  map (fun i => (start + Z.of_nat i)%Z) (seq 0 (Z.to_nat (stop - start))).

(** [needle in haystack] on strings: [needle] occurs as a substring. *)
Fixpoint contains (needle haystack : string) : bool :=
  String.prefix needle haystack ||
  match haystack with
  | EmptyString => false
  | String _ rest => contains needle rest
  end.

(** [any(word in text for word in words)]. *)
Definition any_in (words : list string) (text : string) : bool :=
  existsb (fun word => contains word text) words.

End Py.

Import Py.

(** ** financial_calculators.py *)

Module FinancialCalculators.

(** The four metrics [compound_interest_calculator] displays. *)
Record Metrics : Type := {
  total_future_value : Q;
  total_contributions : Q;
  total_interest : Q;
  return_on_investment : Q
}.

(** The widget values are the arguments; the result is what the four
    [st.metric] calls show. *)
Definition compound_interest_calculator
    (principal monthly_contribution annual_rate : Q) (years : Z)
    : result Metrics :=
  let monthly_rate := annual_rate / 100 / 12 in
  let total_months := (years * 12)%Z in
  growth ← pow (1 + monthly_rate) total_months;
  let fv_principal := principal * growth in
  fv_annuity ←
    (if gt monthly_rate 0 then
       growth' ← pow (1 + monthly_rate) total_months;
       factor ← truediv (growth' - 1) monthly_rate;
       Ok (monthly_contribution * factor)
     else Ok (monthly_contribution * inject_Z total_months));
  let total_future_value := fv_principal + fv_annuity in
  let total_contributions :=
    principal + monthly_contribution * inject_Z total_months in
  let total_interest := total_future_value - total_contributions in
  ratio ← truediv total_interest total_contributions;
  Ok {| total_future_value := total_future_value;
        total_contributions := total_contributions;
        total_interest := total_interest;
        return_on_investment := ratio * 100 |}.

(** The four parallel lists the projection chart is drawn from. *)
Record ChartData : Type := {
  years_data : list Z;
  principal_values : list Q;
  contribution_values : list Q;
  total_values : list Q
}.

(** Body of the [for year in range(years + 1)] loop: the three values of
    one year. *)
Definition chart_values
    (principal monthly_contribution monthly_rate : Q) (year : Z)
    : result (Q * Q * Q) :=
  let months := (year * 12)%Z in
  if (months =? 0)%Z then Ok (principal, 0, principal)
  else
    growth ← pow (1 + monthly_rate) months;
    let principal_val := principal * growth in
    contribution_val ←
      (if gt monthly_rate 0 then
         growth' ← pow (1 + monthly_rate) months;
         factor ← truediv (growth' - 1) monthly_rate;
         Ok (monthly_contribution * factor)
       else Ok (monthly_contribution * inject_Z months));
    Ok (principal_val, contribution_val, principal_val + contribution_val).

Fixpoint chart_loop
    (principal monthly_contribution monthly_rate : Q)
    (years_range : list Z) (acc : ChartData) : result ChartData :=
  match years_range with
  | [] => Ok acc
  | year :: rest =>
      '(principal_val, contribution_val, total_val) ←
        chart_values principal monthly_contribution monthly_rate year;
      chart_loop principal monthly_contribution monthly_rate rest
        {| years_data := years_data acc ++ [year];
           principal_values := principal_values acc ++ [principal_val];
           contribution_values := contribution_values acc ++ [contribution_val];
           total_values := total_values acc ++ [total_val] |}
  end.

Definition _create_compound_interest_chart
    (principal monthly_contribution annual_rate : Q) (years : Z)
    : result ChartData :=
  let monthly_rate := annual_rate / 100 / 12 in
  chart_loop principal monthly_contribution monthly_rate
    (range 0 (years + 1))
    {| years_data := []; principal_values := [];
       contribution_values := []; total_values := [] |}.

(** One row of [schedule_data]; the amounts are the numbers the row
    formats with [.2f]. *)
Record PaymentRecord : Type := {
  Month : Z;
  Payment : Q;
  Principal : Q;
  Interest : Q;
  Balance : Q
}.

(** The [for month in range(1, total_payments + 1)] loop.  [balance] and
    [monthly_payment] are the two variables the loop assigns; the rows come
    out in the order they are appended, and the [break] ends the list. *)
Fixpoint amortization_loop
    (monthly_rate : Q) (months : list Z) (balance monthly_payment : Q)
    : list PaymentRecord :=
  match months with
  | [] => []
  | month :: rest =>
      let interest_payment := balance * monthly_rate in
      let principal_payment := monthly_payment - interest_payment in
      let clamp := gt principal_payment balance in
      let principal_payment := if clamp then balance else principal_payment in
      let monthly_payment :=
        if clamp then principal_payment + interest_payment
        else monthly_payment in
      let balance := balance - principal_payment in
      {| Month := month;
         Payment := monthly_payment;
         Principal := principal_payment;
         Interest := interest_payment;
         Balance := balance |}
      :: (if le balance 0 then []
          else amortization_loop monthly_rate rest balance monthly_payment)
  end.

Definition _create_amortization_schedule
    (loan_amount interest_rate : Q) (loan_term : Z) (monthly_payment : Q)
    : list PaymentRecord :=
  let monthly_rate := interest_rate / 100 / 12 in
  let total_payments := (loan_term * 12)%Z in
  amortization_loop monthly_rate (range 1 (total_payments + 1))
    loan_amount monthly_payment.

(** The level payment [loan_calculator] computes before it builds the
    schedule. *)
Definition monthly_payment_of
    (loan_amount interest_rate : Q) (loan_term : Z) : result Q :=
  let monthly_rate := interest_rate / 100 / 12 in
  let total_payments := (loan_term * 12)%Z in
  if gt monthly_rate 0 then
    growth ← pow (1 + monthly_rate) total_payments;
    growth' ← pow (1 + monthly_rate) total_payments;
    truediv (loan_amount * (monthly_rate * growth)) (growth' - 1)
  else truediv loan_amount (inject_Z total_payments).

(** [loan_calculator] with the schedule button pressed. *)
Definition loan_calculator
    (loan_amount interest_rate : Q) (loan_term : Z)
    : result (list PaymentRecord) :=
  monthly_payment ← monthly_payment_of loan_amount interest_rate loan_term;
  Ok (_create_amortization_schedule
        loan_amount interest_rate loan_term monthly_payment).

(** What [loan_calculator] displays before the schedule button: the level
    payment, the total interest and the total paid. *)
Record LoanMetrics : Type := {
  loan_monthly_payment : Q;
  loan_total_interest : Q;
  loan_total_paid : Q
}.

Definition loan_calculator_metrics
    (loan_amount interest_rate : Q) (loan_term : Z) : result LoanMetrics :=
  let total_payments := (loan_term * 12)%Z in
  monthly_payment ← monthly_payment_of loan_amount interest_rate loan_term;
  let total_paid := monthly_payment * inject_Z total_payments in
  let total_interest := total_paid - loan_amount in
  Ok {| loan_monthly_payment := monthly_payment;
        loan_total_interest := total_interest;
        loan_total_paid := total_paid |}.

(** The five metrics [mortgage_calculator] displays.  Its monthly payment is
    the same expression as in [loan_calculator], on the price less the down
    payment. *)
Record MortgageMetrics : Type := {
  mortgage_loan_amount : Q;
  mortgage_monthly_payment : Q;
  mortgage_total_interest : Q;
  mortgage_total_paid : Q;
  down_payment_percent : Q
}.

Definition mortgage_calculator
    (home_price down_payment interest_rate : Q) (loan_term : Z)
    : result MortgageMetrics :=
  let loan_amount := home_price - down_payment in
  let total_payments := (loan_term * 12)%Z in
  monthly_payment ← monthly_payment_of loan_amount interest_rate loan_term;
  let total_paid := monthly_payment * inject_Z total_payments in
  let total_interest := total_paid - loan_amount in
  ratio ← truediv down_payment home_price;
  Ok {| mortgage_loan_amount := loan_amount;
        mortgage_monthly_payment := monthly_payment;
        mortgage_total_interest := total_interest;
        mortgage_total_paid := total_paid;
        down_payment_percent := ratio * 100 |}.

(** The four parallel lists of the mortgage breakdown chart. *)
Record MortgageChart : Type := {
  mortgage_years_data : list Z;
  principal_payments : list Q;
  interest_payments : list Q;
  remaining_balance : list Q
}.

(** The [for month in range(12)] loop of one year, on the three variables it
    assigns: [year_principal], [year_interest] and [balance]. *)
Fixpoint mortgage_months
    (monthly_rate monthly_payment : Q) (months : list Z) (state : Q * Q * Q)
    : Q * Q * Q :=
  match months with
  | [] => state
  | _ :: rest =>
      let '(year_principal, year_interest, balance) := state in
      if gt balance 0 then
        let interest_payment := balance * monthly_rate in
        let principal_payment := monthly_payment - interest_payment in
        let principal_payment :=
          if gt principal_payment balance then balance
          else principal_payment in
        mortgage_months monthly_rate monthly_payment rest
          (year_principal + principal_payment,
           year_interest + interest_payment,
           balance - principal_payment)
      else mortgage_months monthly_rate monthly_payment rest state
  end.

(** The [for year in range(loan_term + 1)] loop. *)
Fixpoint mortgage_years
    (monthly_rate monthly_payment : Q) (years : list Z) (balance : Q)
    (acc : MortgageChart) : MortgageChart :=
  match years with
  | [] => acc
  | year :: rest =>
      let '(year_principal, year_interest, balance) :=
        mortgage_months monthly_rate monthly_payment (range 0 12)
          (0, 0, balance) in
      mortgage_years monthly_rate monthly_payment rest balance
        {| mortgage_years_data := mortgage_years_data acc ++ [year];
           principal_payments := principal_payments acc ++ [year_principal];
           interest_payments := interest_payments acc ++ [year_interest];
           remaining_balance := remaining_balance acc ++ [balance] |}
  end.

Definition _create_mortgage_breakdown_chart
    (loan_amount interest_rate : Q) (loan_term : Z) : result MortgageChart :=
  let monthly_rate := interest_rate / 100 / 12 in
  monthly_payment ← monthly_payment_of loan_amount interest_rate loan_term;
  Ok (mortgage_years monthly_rate monthly_payment (range 0 (loan_term + 1))
        loan_amount
        {| mortgage_years_data := []; principal_payments := [];
           interest_payments := []; remaining_balance := [] |}).

End FinancialCalculators.

(** ** investment_advisor.py *)

Module InvestmentAdvisor.

Record Allocation : Type := {
  stocks : Z;
  bonds : Z;
  cash : Z;
  description : string
}.

Definition risk_profiles : gmap string Allocation :=
  {[ "conservative"%string :=
       {| stocks := 30; bonds := 60; cash := 10;
          description := "Low risk, stable returns, capital preservation" |};
     "moderate"%string :=
       {| stocks := 50; bonds := 40; cash := 10;
          description := "Balanced risk and return, steady growth" |};
     "aggressive"%string :=
       {| stocks := 70; bonds := 20; cash := 10;
          description := "Higher risk, potential for higher returns" |} ]}.

(** The keys of [user_profile] the advisor reads; [None] is an absent
    key. *)
Record UserProfile : Type := {
  risk_tolerance : option string;
  age : option Z;
  income : option Z
}.

(** The allocation [_get_portfolio_recommendation] prints. *)
Definition _get_portfolio_recommendation (user_profile : UserProfile)
    : result Allocation :=
  let risk_tolerance :=
    default "moderate"%string (risk_tolerance user_profile) in
  let age := default 30%Z (age user_profile) in
  let stock_adjustment :=
    if (age <? 30)%Z then 10%Z
    else if (age <? 50)%Z then 0%Z
    else (-10)%Z in
  match risk_profiles !! risk_tolerance with
  | None => Raise (KeyError risk_tolerance)
  | Some base_allocation =>
      let stocks' :=
        Z.max 20 (Z.min 80 (stocks base_allocation + stock_adjustment)) in
      let bonds' := (100 - stocks' - cash base_allocation)%Z in
      Ok {| stocks := stocks';
            bonds := bonds';
            cash := cash base_allocation;
            description := description base_allocation |}
  end.

(** [_calculate_expected_return]. *)
Definition _calculate_expected_return (allocation : Allocation) : Q :=
  let stock_return := 8.5 in
  let bond_return := 4.0 in
  let cash_return := 2.0 in
  (inject_Z (stocks allocation) * stock_return +
   inject_Z (bonds allocation) * bond_return +
   inject_Z (cash allocation) * cash_return) / 100.

(** The figure [_get_portfolio_recommendation] prints as the expected return
    of the portfolio: [_calculate_expected_return] of the allocation it
    recommends. *)
Definition portfolio_expected_return (user_profile : UserProfile) : result Q :=
  base_allocation ← _get_portfolio_recommendation user_profile;
  Ok (_calculate_expected_return base_allocation).

(** The numbers [_get_retirement_investment_advice] prints. *)
Record RetirementAdvice : Type := {
  years_to_retirement : Z;
  annual_retirement_need : Q;
  total_retirement_need : Q;
  recommended_monthly_savings : Q;
  target_monthly_savings : Q;
  maximum_monthly_savings : Q;
  current_stocks : Z;
  current_bonds : Z;
  growth_at_7 : Q;
  growth_at_10 : Q
}.

Definition _get_retirement_investment_advice (user_profile : UserProfile)
    : result RetirementAdvice :=
  let age := default 30%Z (age user_profile) in
  let income := default 50000%Z (income user_profile) in
  let years_to_retirement := (65 - age)%Z in
  let annual_retirement_need := inject_Z income * 0.8 in
  let total_retirement_need := annual_retirement_need * 25 in
  let monthly_income := inject_Z income / 12 in
  let recommended_monthly_savings := monthly_income * 0.15 in
  growth7 ← pow 1.07 years_to_retirement;
  growth10 ← pow 1.10 years_to_retirement;
  Ok {| years_to_retirement := years_to_retirement;
        annual_retirement_need := annual_retirement_need;
        total_retirement_need := total_retirement_need;
        recommended_monthly_savings := recommended_monthly_savings;
        target_monthly_savings := monthly_income * 0.2;
        maximum_monthly_savings := monthly_income * 0.25;
        current_stocks := Z.max 20 (100 - age);
        current_bonds := Z.min 80 age;
        growth_at_7 :=
          recommended_monthly_savings * 12 * inject_Z years_to_retirement
          * growth7;
        growth_at_10 :=
          recommended_monthly_savings * 12 * inject_Z years_to_retirement
          * growth10 |}.

(** The handler [get_investment_advice] picks.  The text the handler
    returns is not modelled; [lower] stands for [str.lower], whose Unicode
    case mapping is left as a parameter. *)
Inductive InvestmentRoute : Type :=
| PortfolioRecommendation
| StartInvestingGuide
| AssessRiskTolerance
| RetirementInvestmentAdvice
| DiversificationAdvice
| RebalancingAdvice
| GeneralInvestmentAdvice.

Definition get_investment_advice
    (lower : string -> string) (user_input : string) : InvestmentRoute :=
  let user_input_lower := lower user_input in
  if contains "portfolio" user_input_lower
     || contains "asset allocation" user_input_lower
  then PortfolioRecommendation
  else if contains "start investing" user_input_lower
          || contains "begin investing" user_input_lower
  then StartInvestingGuide
  else if contains "risk" user_input_lower
          || contains "risk tolerance" user_input_lower
  then AssessRiskTolerance
  else if contains "retirement" user_input_lower
          && contains "invest" user_input_lower
  then RetirementInvestmentAdvice
  else if contains "diversify" user_input_lower
          || contains "diversification" user_input_lower
  then DiversificationAdvice
  else if contains "rebalance" user_input_lower then RebalancingAdvice
  else GeneralInvestmentAdvice.

End InvestmentAdvisor.

(** ** budget_tracker.py *)

Module BudgetTracker.

Record Expense : Type := {
  date : string;
  amount : Q;
  category : string;
  description : string
}.

(** [st.session_state]: [None] when the key [budget_data] is absent. *)
Record SessionState : Type := {
  budget_data : option (list Expense)
}.

Record Summary : Type := {
  total : Q;
  categories : gmap string Q;
  count : Z
}.

(** [df.groupby('category')['amount'].sum().to_dict()]. *)
Definition group_sums (rows : list Expense) : gmap string Q :=
  fold_left
    (fun sums row =>
       <[category row := default 0 (sums !! category row) + amount row]> sums)
    rows ∅.

Definition get_budget_summary (session_state : SessionState) : Summary :=
  match budget_data session_state with
  | None | Some [] => {| total := 0; categories := ∅; count := 0 |}
  | Some rows =>
      {| total := fold_left (fun s row => s + amount row) rows 0;
         categories := group_sums rows;
         count := Z.of_nat (length rows) |}
  end.

(** [add_expense]: the session state it leaves.  [today] is what
    [datetime.now().strftime('%Y-%m-%d')] gives at the call; the message the
    function returns is a formatted string and is left out. *)
Definition add_expense
    (today : string) (amount : Q) (category description : string)
    (session_state : SessionState) : SessionState :=
  let rows := default [] (budget_data session_state) in
  let expense :=
    {| date := today; amount := amount; category := category;
       description := description |} in
  {| budget_data := Some (rows ++ [expense]) |}.



(** The handler [analyze_budget_question] picks. *)
Inductive BudgetRoute : Type :=
| CreateBudgetGuide
| ExpenseTrackingGuide
| AnalyzeCurrentBudget
| MoneySavingTips
| GeneralBudgetAdvice.

Definition analyze_budget_question
    (lower : string -> string) (user_input : string) : BudgetRoute :=
  let user_input_lower := lower user_input in
  if contains "create budget" user_input_lower
     || contains "make budget" user_input_lower
  then CreateBudgetGuide
  else if contains "track expense" user_input_lower
          || contains "add expense" user_input_lower
  then ExpenseTrackingGuide
  else if contains "budget breakdown" user_input_lower
          || contains "spending analysis" user_input_lower
  then AnalyzeCurrentBudget
  else if contains "save money" user_input_lower
          || contains "cut expenses" user_input_lower
  then MoneySavingTips
  else GeneralBudgetAdvice.

End BudgetTracker.

(** ** app.py *)

Module FinanceChatbot.

(** The keys of [st.session_state.user_profile] the handlers read with
    [profile[...]]; [initialize_session_state] and the profile form always
    set them.  [current_savings] is read with [get] and is never set by the
    form. *)
Record Profile : Type := {
  profile_age : Z;
  profile_income : Z;
  profile_savings_goal : Z;
  profile_risk_tolerance : string;
  profile_current_savings : option Z
}.

(** The numbers [handle_savings_question] puts in its answer. *)
Inductive SavingsAnswer : Type :=
| EmergencyFund (income emergency_fund current_savings goal : Z)
| SavingsProgress (current_savings goal : Z) (percent : Q).

Definition handle_savings_question
    (lower : string -> string) (user_input : string) (profile : Profile)
    : result SavingsAnswer :=
  let current_savings := default 0%Z (profile_current_savings profile) in
  let goal := profile_savings_goal profile in
  if contains "emergency fund" (lower user_input) then
    let emergency_fund := (profile_income profile * 3)%Z in
    Ok (EmergencyFund (profile_income profile) emergency_fund
          current_savings goal)
  else
    ratio ← truediv (inject_Z current_savings) (inject_Z goal);
    Ok (SavingsProgress current_savings goal (ratio * 100)).

(** The numbers [handle_retirement_question] puts in its answer. *)
Record RetirementPlan : Type := {
  plan_years_to_retirement : Z;
  plan_annual_need : Q;
  plan_total_need : Q;
  plan_monthly_at_10 : Q;
  plan_monthly_at_7 : Q
}.

Definition handle_retirement_question (profile : Profile) : RetirementPlan :=
  let age := profile_age profile in
  let income := profile_income profile in
  let retirement_age := 65%Z in
  let years_to_retirement := (retirement_age - age)%Z in
  let annual_retirement_need := inject_Z income * 0.8 in
  let total_retirement_need := annual_retirement_need * 25 in
  {| plan_years_to_retirement := years_to_retirement;
     plan_annual_need := annual_retirement_need;
     plan_total_need := total_retirement_need;
     plan_monthly_at_10 := total_retirement_need * 0.1 / 12;
     plan_monthly_at_7 := total_retirement_need * 0.07 / 12 |}.

(** The branch [handle_calculation_request] takes. *)
Inductive CalculationRoute : Type :=
| CompoundInterestCalculator
| MortgageCalculator
| LoanCalculator
| CalculationHelp.

Definition handle_calculation_request
    (lower : string -> string) (user_input : string) : CalculationRoute :=
  if contains "compound interest" (lower user_input)
  then CompoundInterestCalculator
  else if contains "mortgage" (lower user_input) then MortgageCalculator
  else if contains "loan" (lower user_input) then LoanCalculator
  else CalculationHelp.

(** The handler [generate_response] calls, with the handler that one picks
    in turn.  The text returned is not modelled. *)
Inductive Route : Type :=
| BudgetQuestion (route : BudgetTracker.BudgetRoute)
| InvestmentQuestion (route : InvestmentAdvisor.InvestmentRoute)
| SavingsQuestion
| DebtQuestion
| RetirementQuestion
| CalculationRequest (route : CalculationRoute)
| GeneralAdvice.

Definition generate_response
    (lower : string -> string) (user_input : string) : Route :=
  let user_input_lower := lower user_input in
  if any_in ["budget"; "expense"; "spending"]%string user_input_lower
  then BudgetQuestion (BudgetTracker.analyze_budget_question lower user_input)
  else if any_in ["invest"; "investment"; "portfolio"; "stock"; "bond"]%string
            user_input_lower
  then InvestmentQuestion
         (InvestmentAdvisor.get_investment_advice lower user_input)
  else if any_in ["save"; "saving"; "emergency fund"]%string user_input_lower
  then SavingsQuestion
  else if any_in ["debt"; "loan"; "credit"; "pay off"]%string user_input_lower
  then DebtQuestion
  else if any_in ["retirement"; "401k"; "ira"; "pension"]%string
            user_input_lower
  then RetirementQuestion
  else if any_in ["calculate"; "calculator"; "compute"]%string
            user_input_lower
  then CalculationRequest (handle_calculation_request lower user_input)
  else GeneralAdvice.

(** The allocation [show_investment_dashboard] charts, with the keys of its
    dict. *)
Record DashboardAllocation : Type := {
  Bonds : Z;
  Stocks : Z;
  Cash : Z
}.

Definition show_investment_dashboard (profile : Profile)
    : DashboardAllocation :=
  let risk_tolerance := profile_risk_tolerance profile in
  if String.eqb risk_tolerance "conservative" then
    {| Bonds := 60; Stocks := 30; Cash := 10 |}
  else if String.eqb risk_tolerance "moderate" then
    {| Bonds := 40; Stocks := 50; Cash := 10 |}
  else
    {| Bonds := 20; Stocks := 70; Cash := 10 |}.

(** [months_to_goal]: a quotient, or [float('inf')]. *)
Inductive MonthsToGoal : Type :=
| MonthsToGo (months : Q)
| MonthsInf.

(** The numbers [show_savings_progress] displays. *)
Record SavingsView : Type := {
  progress : Q;
  months_to_goal : MonthsToGoal;
  monthly_savings_target : Q
}.

Definition show_savings_progress (profile : Profile) : result SavingsView :=
  let current_savings := default 0%Z (profile_current_savings profile) in
  let goal := profile_savings_goal profile in
  ratio ← truediv (inject_Z current_savings) (inject_Z goal);
  (* min(ratio, 1.0) *)
  let progress := if gt ratio 1 then 1 else ratio in
  let monthly_income := inject_Z (profile_income profile) / 12 in
  let monthly_savings := monthly_income * 0.2 in
  months_to_goal ←
    (if gt monthly_savings 0 then
       months ← truediv (inject_Z (goal - current_savings)) monthly_savings;
       Ok (MonthsToGo months)
     else Ok MonthsInf);
  Ok {| progress := progress;
        months_to_goal := months_to_goal;
        monthly_savings_target := monthly_savings |}.

End FinanceChatbot.

(** ** Notions used to state the properties *)

Import FinancialCalculators InvestmentAdvisor BudgetTracker FinanceChatbot.

(** The age rule of [_get_portfolio_recommendation]. *)
Definition age_adjustment (age : Z) : Z :=
  if (age <? 30)%Z then 10%Z else if (age <? 50)%Z then 0%Z else (-10)%Z.

(** The three entries of [risk_profiles], as (name, stocks, bonds, cash). *)
Definition base_table : list (string * (Z * Z * Z)) :=
  [("conservative"%string, (30, 60, 10)%Z);
   ("moderate"%string, (50, 40, 10)%Z);
   ("aggressive"%string, (70, 20, 10)%Z)].

(** What one pass of the chart loop appends for [year], when nothing is
    raised: the value of [chart_values]. *)
Definition year_values
    (principal monthly_contribution monthly_rate : Q) (year : Z) : Q * Q * Q :=
  let months := (year * 12)%Z in
  if (months =? 0)%Z then (principal, 0, principal)
  else
    let principal_val := principal * (1 + monthly_rate) ^ months in
    let contribution_val :=
      if gt monthly_rate 0 then
        monthly_contribution * (((1 + monthly_rate) ^ months - 1) / monthly_rate)
      else monthly_contribution * inject_Z months in
    (principal_val, contribution_val, principal_val + contribution_val).

(** The balance a period starts from: the loan amount for the first row,
    the balance of the row before for the others. *)
Definition balance_before
    (loan_amount : Q) (schedule : list PaymentRecord) (k : nat) : Q :=
  match k with
  | O => loan_amount
  | S j => match schedule !! j with
           | Some row => Balance row
           | None => 0
           end
  end.

(** Sum of the principal portions of a schedule. *)
Definition principal_sum (schedule : list PaymentRecord) : Q :=
  fold_right (fun row acc => Principal row + acc) 0 schedule.

(** The balance after [k] unclamped periods: what the loop computes as long
    as the principal portion never exceeds the balance. *)
Fixpoint ideal_balance (loan_amount r payment : Q) (k : nat) : Q :=
  match k with
  | O => loan_amount
  | S j =>
      let b := ideal_balance loan_amount r payment j in
      b - (payment - b * r)
  end.

(** Sum of the values of a category map. *)
Definition categories_total (sums : gmap string Q) : Q :=
  map_fold (fun _ v acc => v + acc) 0 sums.

(** Sum of the amounts of the rows of one category, in ledger order. *)
Definition category_total (c : string) (rows : list Expense) : Q :=
  fold_left
    (fun s row => if decide (category row = c) then s + amount row else s)
    rows 0.


(** The future value [compound_interest_calculator] computes for [n] months
    at the monthly rate [r], before its last division. *)
Definition future_value (p c r : Q) (n : Z) : Q :=
  p * (1 + r) ^ n +
  (if gt r 0 then c * (((1 + r) ^ n - 1) / r) else c * inject_Z n).

(** Sum of a list of amounts. *)
Definition Qsum (l : list Q) : Q := fold_right Qplus 0 l.

(** The yearly totals the mortgage chart appends, one triple
    (principal paid, interest paid, balance left) per year, for [n] years
    from the balance [balance]. *)
Fixpoint year_totals
    (monthly_rate monthly_payment : Q) (n : nat) (balance : Q)
    : list (Q * Q * Q) :=
  match n with
  | O => []
  | S n' =>
      let t :=
        mortgage_months monthly_rate monthly_payment (range 0 12)
          (0, 0, balance) in
      t :: year_totals monthly_rate monthly_payment n' t.2
  end.

(** Sums of the payments and of the interest portions of a schedule. *)
Definition payment_sum (schedule : list PaymentRecord) : Q :=
  fold_right (fun row acc => Payment row + acc) 0 schedule.

Definition interest_sum (schedule : list PaymentRecord) : Q :=
  fold_right (fun row acc => Interest row + acc) 0 schedule.

(** * Properties *)

(** ** Comparisons and the two partial operators *)

Lemma gt_true (x y : Q) : gt x y = true <-> y < x.
Proof.
  unfold gt. rewrite negb_true_iff.
  destruct (Qle_bool x y) eqn:E.
  - apply Qle_bool_iff in E. split; [discriminate | intros H; lra].
  - split; [intros _ | reflexivity].
    apply Qnot_le_lt. intros H. apply Qle_bool_iff in H. congruence.
Qed.

Lemma gt_false (x y : Q) : gt x y = false <-> x <= y.
Proof.
  unfold gt. rewrite negb_false_iff. apply Qle_bool_iff.
Qed.

Lemma le_true (x y : Q) : le x y = true <-> x <= y.
Proof. apply Qle_bool_iff. Qed.

Lemma le_false (x y : Q) : le x y = false <-> y < x.
Proof.
  unfold le. destruct (Qle_bool x y) eqn:E.
  - apply Qle_bool_iff in E. split; [discriminate | intros H; lra].
  - split; [intros _ | reflexivity].
    apply Qnot_le_lt. intros H. apply Qle_bool_iff in H. congruence.
Qed.

Lemma Qeq_bool_false (x y : Q) : ~ x == y -> Qeq_bool x y = false.
Proof.
  intros H. destruct (Qeq_bool x y) eqn:E; [| reflexivity].
  apply Qeq_bool_iff in E. contradiction.
Qed.

Lemma truediv_ok (x y : Q) : ~ y == 0 -> truediv x y = Ok (x / y).
Proof. intros H. unfold truediv. now rewrite Qeq_bool_false. Qed.

Lemma truediv_zero (x y : Q) : y == 0 -> truediv x y = Raise ZeroDivisionError.
Proof.
  intros H. unfold truediv. apply Qeq_bool_iff in H. now rewrite H.
Qed.

Lemma pow_ok (x : Q) (n : Z) : (0 <= n)%Z -> pow x n = Ok (x ^ n).
Proof.
  intros H. unfold pow.
  replace (n <? 0)%Z with false by (symmetry; apply Z.ltb_ge; exact H).
  now rewrite andb_false_r.
Qed.

Lemma range_length (start stop : Z) :
  length (range start stop) = Z.to_nat (stop - start).
Proof. unfold range. now rewrite length_map, length_seq. Qed.

Lemma range_lookup (start stop : Z) (i : nat) :
  (i < Z.to_nat (stop - start))%nat ->
  range start stop !! i = Some (start + Z.of_nat i)%Z.
Proof.
  intros H. unfold range.
  rewrite list_lookup_fmap, lookup_seq_lt by exact H. reflexivity.
Qed.

Lemma range_ge (start stop x : Z) : In x (range start stop) -> (start <= x)%Z.
Proof.
  unfold range. rewrite in_map_iff. intros (i & <- & _). lia.
Qed.

(** ** Portfolio recommendation *)

Lemma base_table_lookup (name : string) (s0 b0 c0 : Z) :
  In (name, (s0, b0, c0)) base_table ->
  exists d,
    risk_profiles !! name =
    Some {| stocks := s0; bonds := b0; cash := c0; InvestmentAdvisor.description := d |}.
Proof.
  unfold base_table. simpl.
  intros [H | [H | [H | []]]]; inversion H; subst; eexists; reflexivity.
Qed.

Lemma recommendation_of_base
    (name : string) (base : Allocation) (a : Z) (inc : option Z) :
  risk_profiles !! name = Some base ->
  _get_portfolio_recommendation
    {| risk_tolerance := Some name; age := Some a; income := inc |} =
  Ok {| stocks := Z.max 20 (Z.min 80 (stocks base + age_adjustment a));
        bonds := 100 - Z.max 20 (Z.min 80 (stocks base + age_adjustment a))
                 - cash base;
        cash := cash base;
        InvestmentAdvisor.description := InvestmentAdvisor.description base |}.
Proof.
  intros H. unfold _get_portfolio_recommendation. simpl. rewrite H.
  reflexivity.
Qed.

(** C3.  For each of the three risk profiles and every age >= 0 the
    recommended stock share is the base share plus 10 below 30, plus 0 from
    30 to 49, minus 10 from 50 on, clamped to [20, 80]; bonds are
    100 - stocks - cash and cash is the base cash share.  An aggressive
    25-year-old gets 80/10/10 and a conservative 60-year-old 20/70/10. *)
Theorem recommend_rule
    (name : string) (s0 b0 c0 : Z) (a : Z) (inc : option Z) :
  In (name, (s0, b0, c0)) base_table ->
  (0 <= a)%Z ->
  (exists alloc,
     _get_portfolio_recommendation
       {| risk_tolerance := Some name; age := Some a; income := inc |}
     = Ok alloc /\
     stocks alloc =
       Z.max 20 (Z.min 80
         (s0 + (if (a <? 30)%Z then 10 else if (a <? 50)%Z then 0 else -10)))%Z /\
     bonds alloc = (100 - stocks alloc - c0)%Z /\
     cash alloc = c0) /\
  (exists d,
     _get_portfolio_recommendation
       {| risk_tolerance := Some "aggressive"%string; age := Some 25%Z;
          income := inc |}
     = Ok {| stocks := 80; bonds := 10; cash := 10; InvestmentAdvisor.description := d |}) /\
  (exists d,
     _get_portfolio_recommendation
       {| risk_tolerance := Some "conservative"%string; age := Some 60%Z;
          income := inc |}
     = Ok {| stocks := 20; bonds := 70; cash := 10; InvestmentAdvisor.description := d |}).
Proof.
  intros Hin _. split; [| split].
  - destruct (base_table_lookup _ _ _ _ Hin) as [d Hd].
    eexists. split; [apply (recommendation_of_base _ _ a inc Hd) |].
    simpl. unfold age_adjustment. repeat split; reflexivity.
  - eexists. reflexivity.
  - eexists. reflexivity.
Qed.

Lemma recommend_rule_witness :
  exists alloc,
    _get_portfolio_recommendation
      {| risk_tolerance := Some "moderate"%string; age := Some 41%Z;
         income := Some 50000%Z |} = Ok alloc /\
    stocks alloc = 50%Z /\ bonds alloc = 40%Z /\ cash alloc = 10%Z.
Proof.
  destruct (recommend_rule "moderate" 50 40 10 41 (Some 50000%Z))
    as [(alloc & H1 & H2 & H3 & H4) _].
  - unfold base_table. simpl. right. left. reflexivity.
  - lia.
  - exists alloc. repeat split; [exact H1 | exact H2 | | exact H4].
    rewrite H3, H2. reflexivity.
Defined.

(** C5.  For each of the three risk profiles and every age >= 0 the
    recommended shares add up to exactly 100 and the stock share lies in
    [20, 80]. *)
Theorem recommend_sums_to_100
    (name : string) (a : Z) (inc : option Z) :
  In name ["conservative"%string; "moderate"%string; "aggressive"%string] ->
  (0 <= a)%Z ->
  exists alloc,
    _get_portfolio_recommendation
      {| risk_tolerance := Some name; age := Some a; income := inc |}
    = Ok alloc /\
    (stocks alloc + bonds alloc + cash alloc = 100)%Z /\
    (20 <= stocks alloc <= 80)%Z.
Proof.
  intros Hin _.
  assert (exists base, risk_profiles !! name = Some base) as [base Hb].
  { simpl in Hin. destruct Hin as [H | [H | [H | []]]]; subst;
      eexists; reflexivity. }
  eexists. split; [apply (recommendation_of_base _ _ a inc Hb) |].
  simpl. lia.
Qed.

Lemma recommend_sums_to_100_witness :
  exists alloc,
    _get_portfolio_recommendation
      {| risk_tolerance := Some "aggressive"%string; age := Some 72%Z;
         income := None |} = Ok alloc /\
    (stocks alloc + bonds alloc + cash alloc = 100)%Z /\
    (20 <= stocks alloc <= 80)%Z.
Proof.
  apply (recommend_sums_to_100 "aggressive" 72 None).
  - simpl. right. right. left. reflexivity.
  - lia.
Defined.

(** ** Budget summary *)

(** C9.  With no recorded expense, whether the [budget_data] key is absent or
    holds an empty list, [get_budget_summary] returns total 0, an empty
    category map and count 0; it is a plain value, no exception is raised. *)
Theorem empty_budget_summary :
  get_budget_summary {| budget_data := Some [] |} =
    {| total := 0; categories := ∅; count := 0 |} /\
  get_budget_summary {| budget_data := None |} =
    {| total := 0; categories := ∅; count := 0 |}.
Proof. split; reflexivity. Qed.

(** ** Compound interest: the summary metrics *)

(** One step of the exception monad. *)
Ltac run_bind := cbn [mbind mret result_bind result_ret bind].

(** With nothing invested the return-on-investment ratio divides by zero,
    whatever the rate and the period. *)
Lemma roi_division_by_zero (annual_rate : Q) (years : Z) :
  compound_interest_calculator 0 0 annual_rate years = Raise ZeroDivisionError.
Proof.
  unfold compound_interest_calculator.
  destruct (pow (1 + annual_rate / 100 / 12) (years * 12)) as [g | e] eqn:Hg.
  - run_bind.
    destruct (gt (annual_rate / 100 / 12) 0) eqn:Hr.
    + apply gt_true in Hr. rewrite truediv_ok by lra. run_bind.
      rewrite truediv_zero by ring. reflexivity.
    + run_bind. rewrite truediv_zero by ring. reflexivity.
  - unfold pow in Hg.
    destruct (Qeq_bool _ 0 && _)%bool; inversion Hg. reflexivity.
Qed.

(** C6 (the zero case).  With principal 0 and contribution 0, at 7% over 20
    years, the calculator raises [ZeroDivisionError] where the specification
    asks for a return on investment of 0. *)
Theorem roi_raises_when_nothing_contributed :
  compound_interest_calculator 0 0 7 20 = Raise ZeroDivisionError.
Proof. apply roi_division_by_zero. Qed.

(** The rest of C6: when something was contributed, the metrics are the
    ones the specification gives. *)
Lemma metrics_when_contributed
    (principal monthly_contribution annual_rate : Q) (years : Z) :
  0 <= annual_rate -> (1 <= years)%Z ->
  ~ principal + monthly_contribution * inject_Z (years * 12) == 0 ->
  exists m,
    compound_interest_calculator principal monthly_contribution annual_rate years
    = Ok m /\
    total_contributions m
    == principal + monthly_contribution * inject_Z years * 12 /\
    total_interest m == total_future_value m - total_contributions m /\
    return_on_investment m == total_interest m / total_contributions m * 100.
Proof.
  intros Hrate Hyears Hne. unfold compound_interest_calculator.
  assert (Hn : (0 <= years * 12)%Z) by lia.
  rewrite (pow_ok _ _ Hn). run_bind.
  destruct (gt (annual_rate / 100 / 12) 0) eqn:Hr.
  - apply gt_true in Hr. rewrite truediv_ok by lra. run_bind.
    rewrite truediv_ok by exact Hne. run_bind.
    eexists. split; [reflexivity |]. cbn.
    repeat split; try reflexivity.
    rewrite inject_Z_mult. ring.
  - run_bind. rewrite truediv_ok by exact Hne. run_bind.
    eexists. split; [reflexivity |]. cbn.
    repeat split; try reflexivity.
    rewrite inject_Z_mult. ring.
Qed.

(** ** Compound interest: the projection chart *)

Lemma chart_values_ok (p c r : Q) (year : Z) :
  (0 <= year)%Z -> chart_values p c r year = Ok (year_values p c r year).
Proof.
  intros Hy. unfold chart_values, year_values.
  assert (Hn : (0 <= year * 12)%Z) by lia.
  destruct (year * 12 =? 0)%Z; [reflexivity |].
  rewrite (pow_ok _ _ Hn). run_bind.
  destruct (gt r 0) eqn:Hr.
  - apply gt_true in Hr. rewrite truediv_ok by lra. reflexivity.
  - reflexivity.
Qed.

Lemma chart_loop_ok (p c r : Q) (l : list Z) (acc : ChartData) :
  Forall (fun y => (0 <= y)%Z) l ->
  chart_loop p c r l acc =
  Ok {| years_data := years_data acc ++ l;
        principal_values :=
          principal_values acc ++ map (fun y => (year_values p c r y).1.1) l;
        contribution_values :=
          contribution_values acc ++ map (fun y => (year_values p c r y).1.2) l;
        total_values :=
          total_values acc ++ map (fun y => (year_values p c r y).2) l |}.
Proof.
  intros H. revert acc. induction H as [| y l Hy _ IH]; intros acc.
  - simpl. rewrite !app_nil_r. now destruct acc.
  - cbn [chart_loop]. rewrite (chart_values_ok _ _ _ _ Hy).
    destruct (year_values p c r y) as [[pv cv] tv] eqn:E. run_bind.
    rewrite IH. cbn [years_data principal_values contribution_values total_values map].
    rewrite E. cbn [fst snd]. now rewrite <- !app_assoc.
Qed.

Lemma chart_ok (p c rate : Q) (years : Z) :
  _create_compound_interest_chart p c rate years =
  let r := rate / 100 / 12 in
  let l := range 0 (years + 1) in
  Ok {| years_data := l;
        principal_values := map (fun y => (year_values p c r y).1.1) l;
        contribution_values := map (fun y => (year_values p c r y).1.2) l;
        total_values := map (fun y => (year_values p c r y).2) l |}.
Proof.
  unfold _create_compound_interest_chart.
  rewrite chart_loop_ok; [reflexivity |].
  apply Forall_forall. intros y Hy. apply list_elem_of_In in Hy.
  apply range_ge in Hy. exact Hy.
Qed.

Lemma chart_returns (p c rate : Q) (years : Z) :
  exists d, _create_compound_interest_chart p c rate years = Ok d.
Proof. rewrite chart_ok. eexists. reflexivity. Qed.



Lemma monthly_rate_eq (rate : Q) : rate / 100 / 12 == rate * (1 # 1200).
Proof. field. Qed.

Lemma monthly_rate_nonneg (rate : Q) : 0 <= rate -> 0 <= rate / 100 / 12.
Proof. intros H. rewrite monthly_rate_eq. lra. Qed.

Lemma growth_ge_1 (r : Q) (m : Z) : 0 <= r -> (0 <= m)%Z -> 1 <= (1 + r) ^ m.
Proof. intros Hr Hm. apply Qpower_1_le; [lra | exact Hm]. Qed.

Lemma growth_mono (r : Q) (m n : Z) :
  0 <= r -> (m <= n)%Z -> (1 + r) ^ m <= (1 + r) ^ n.
Proof. intros Hr Hmn. apply Qpower_le_compat_l; [exact Hmn | lra]. Qed.

(** The closed forms of section 4.1 describe every year, year 0 included. *)
Lemma year_values_closed_form (p c r : Q) (y : Z) :
  0 <= r -> (0 <= y)%Z ->
  let m := (y * 12)%Z in
  let v := year_values p c r y in
  v.1.1 == p * (1 + r) ^ m /\
  (0 < r -> v.1.2 == c * (((1 + r) ^ m - 1) / r)) /\
  (r == 0 -> v.1.2 == c * inject_Z m) /\
  v.2 == v.1.1 + v.1.2.
Proof.
  intros Hr Hy m v. subst v. unfold year_values. fold m.
  destruct (m =? 0)%Z eqn:Em.
  - apply Z.eqb_eq in Em. rewrite Em. cbn [fst snd].
    split; [| split; [| split]].
    + rewrite Qpower_0_r. ring.
    + intros Hpos. rewrite Qpower_0_r. field. lra.
    + intros _. change (inject_Z 0) with 0. ring.
    + ring.
  - cbn [fst snd]. split; [| split; [| split]].
    + reflexivity.
    + intros Hpos. apply gt_true in Hpos. rewrite Hpos. reflexivity.
    + intros H0. assert (E : gt r 0 = false) by (apply gt_false; lra).
      rewrite E. reflexivity.
    + reflexivity.
Qed.

Lemma chart_lookup (p c rate : Q) (years y : Z) (d : ChartData) :
  _create_compound_interest_chart p c rate years = Ok d ->
  (0 <= y <= years)%Z ->
  let v := year_values p c (rate / 100 / 12) y in
  years_data d !! Z.to_nat y = Some y /\
  principal_values d !! Z.to_nat y = Some v.1.1 /\
  contribution_values d !! Z.to_nat y = Some v.1.2 /\
  total_values d !! Z.to_nat y = Some v.2.
Proof.
  rewrite chart_ok. intros H Hy v. inversion H; subst d; clear H.
  cbn [years_data principal_values contribution_values total_values].
  assert (Hl : range 0 (years + 1) !! Z.to_nat y = Some y).
  { rewrite range_lookup by lia. f_equal. lia. }
  rewrite !list_lookup_fmap, Hl. repeat split; reflexivity.
Qed.

(** C2.  For principal, contribution, rate >= 0, term >= 1 and every year
    [y] in 0..term, with [m = y*12] and [r = rate/100/12], the point of year
    [y] has principal value [principal * (1+r)^m], contribution value
    [contribution * (((1+r)^m - 1) / r)] when [r > 0] and [contribution * m]
    when [r = 0], and total value their sum; at year 0 the point is exactly
    [(principal, 0)]. *)
Theorem growth_point_formula
    (principal contribution rate : Q) (term y : Z) :
  0 <= principal -> 0 <= contribution -> 0 <= rate -> (1 <= term)%Z ->
  (0 <= y <= term)%Z ->
  let r := rate / 100 / 12 in
  let m := (y * 12)%Z in
  exists d pv cv tv,
    _create_compound_interest_chart principal contribution rate term = Ok d /\
    years_data d !! Z.to_nat y = Some y /\
    principal_values d !! Z.to_nat y = Some pv /\
    contribution_values d !! Z.to_nat y = Some cv /\
    total_values d !! Z.to_nat y = Some tv /\
    pv == principal * (1 + r) ^ m /\
    (0 < r -> cv == contribution * (((1 + r) ^ m - 1) / r)) /\
    (r == 0 -> cv == contribution * inject_Z m) /\
    tv == pv + cv /\
    (y = 0%Z -> pv = principal /\ cv = 0).
Proof.
  intros _ _ Hrate _ Hy r m.
  destruct (chart_returns principal contribution rate term)
    as [d Hd].
  destruct (chart_lookup _ _ _ _ y d Hd Hy) as (Hy0 & Hp & Hc & Ht).
  assert (Hr : 0 <= r) by (apply monthly_rate_nonneg, Hrate).
  destruct (year_values_closed_form principal contribution r y Hr (proj1 Hy))
    as (E1 & E2 & E3 & E4).
  exists d, (year_values principal contribution r y).1.1,
    (year_values principal contribution r y).1.2,
    (year_values principal contribution r y).2.
  do 9 (split; [assumption |]).
  intros ->. split; reflexivity.
Qed.

Lemma year_values_nonneg (p c r : Q) (y : Z) :
  0 <= p -> 0 <= c -> 0 <= r -> (0 <= y)%Z ->
  let v := year_values p c r y in
  0 <= v.1.1 /\ 0 <= v.1.2 /\ 0 <= v.2.
Proof.
  intros Hp Hc Hr Hy v.
  destruct (year_values_closed_form p c r y Hr Hy) as (E1 & E2 & E3 & E4).
  fold v in E1, E2, E3, E4.
  pose proof (growth_ge_1 r (y * 12) Hr ltac:(lia)) as Hg.
  assert (H1 : 0 <= v.1.1) by (rewrite E1; nra).
  assert (H2 : 0 <= v.1.2).
  { destruct (Qlt_le_dec 0 r) as [Hpos | Hle].
    - rewrite (E2 Hpos).
      assert (0 <= ((1 + r) ^ (y * 12) - 1) / r).
      { unfold Qdiv. apply Qmult_le_0_compat; [lra |].
        apply Qinv_le_0_compat. lra. }
      nra.
    - rewrite E3 by lra.
      assert (0 <= inject_Z (y * 12)).
      { change 0 with (inject_Z 0). rewrite <- Zle_Qle. lia. }
      nra. }
  repeat split; [exact H1 | exact H2 | rewrite E4; lra].
Qed.

Lemma year_values_total_mono (p c r : Q) (y : Z) :
  0 <= p -> 0 <= c -> 0 <= r -> (0 <= y)%Z ->
  (year_values p c r y).2 <= (year_values p c r (y + 1)).2.
Proof.
  intros Hp Hc Hr Hy.
  destruct (year_values_closed_form p c r y Hr Hy) as (E1 & E2 & E3 & E4).
  destruct (year_values_closed_form p c r (y + 1) Hr ltac:(lia))
    as (F1 & F2 & F3 & F4).
  rewrite E4, F4, E1, F1.
  pose proof (growth_mono r (y * 12) ((y + 1) * 12) Hr ltac:(lia)) as Hg.
  set (a := (1 + r) ^ (y * 12)) in *.
  set (b := (1 + r) ^ ((y + 1) * 12)) in *.
  assert (Hpa : p * a <= p * b) by nra.
  destruct (Qlt_le_dec 0 r) as [Hpos | Hle].
  - rewrite (E2 Hpos), (F2 Hpos).
    assert ((a - 1) / r <= (b - 1) / r).
    { unfold Qdiv. apply Qmult_le_compat_r; [lra |].
      apply Qinv_le_0_compat. lra. }
    nra.
  - rewrite E3, F3 by lra.
    assert (inject_Z (y * 12) <= inject_Z ((y + 1) * 12)).
    { rewrite <- Zle_Qle. lia. }
    nra.
Qed.

(** C8.  For principal, contribution, rate >= 0 and term >= 1 the series has
    exactly [term + 1] points, for the years 0, 1, ..., term in this order;
    every value is >= 0, and the total value never decreases from one year
    to the next. *)
Theorem growth_series_monotone
    (principal contribution rate : Q) (term : Z) :
  0 <= principal -> 0 <= contribution -> 0 <= rate -> (1 <= term)%Z ->
  exists d,
    _create_compound_interest_chart principal contribution rate term = Ok d /\
    (Z.of_nat (length (years_data d)) = term + 1 /\
     Z.of_nat (length (principal_values d)) = term + 1 /\
     Z.of_nat (length (contribution_values d)) = term + 1 /\
     Z.of_nat (length (total_values d)) = term + 1)%Z /\
    (forall i : nat,
       (Z.of_nat i <= term)%Z -> years_data d !! i = Some (Z.of_nat i)) /\
    Forall (fun v => 0 <= v) (principal_values d) /\
    Forall (fun v => 0 <= v) (contribution_values d) /\
    Forall (fun v => 0 <= v) (total_values d) /\
    (forall (i : nat) (a b : Q),
       total_values d !! i = Some a -> total_values d !! S i = Some b ->
       a <= b).
Proof.
  intros Hp Hc Hrate Hterm.
  pose proof (monthly_rate_nonneg rate Hrate) as Hr.
  rewrite chart_ok. eexists. split; [reflexivity |].
  cbn [years_data principal_values contribution_values total_values].
  assert (Hnn : forall f : Q * Q * Q -> Q,
             (forall y, (0 <= y)%Z ->
                0 <= f (year_values principal contribution (rate / 100 / 12) y)) ->
             Forall (fun v => 0 <= v)
               (map (fun y => f (year_values principal contribution
                                   (rate / 100 / 12) y))
                    (range 0 (term + 1)))).
  { intros f Hf. apply Forall_forall. intros v Hv.
    apply list_elem_of_In, in_map_iff in Hv. destruct Hv as (y & <- & Hy).
    apply Hf. apply range_ge in Hy. exact Hy. }
  split; [| split; [| split; [| split; [| split]]]].
  - rewrite !length_map, range_length. lia.
  - intros i Hi. rewrite range_lookup by lia. f_equal.
  - apply (Hnn (fun v => v.1.1)). intros y Hy.
    apply year_values_nonneg; assumption.
  - apply (Hnn (fun v => v.1.2)). intros y Hy.
    apply year_values_nonneg; assumption.
  - apply (Hnn (fun v => v.2)). intros y Hy.
    apply year_values_nonneg; assumption.
  - intros i a b Ha Hb.
    rewrite list_lookup_fmap in Ha, Hb.
    assert (Hlen : (S i < Z.to_nat (term + 1 - 0))%nat).
    { apply fmap_Some in Hb. destruct Hb as (y & Hy & _).
      apply lookup_lt_Some in Hy. rewrite range_length in Hy. exact Hy. }
    rewrite range_lookup in Ha, Hb by lia.
    cbn [fmap option_fmap option_map] in Ha, Hb.
    apply (inj Some) in Ha, Hb. subst a b.
    replace (0 + Z.of_nat (S i))%Z with (0 + Z.of_nat i + 1)%Z by lia.
    apply year_values_total_mono; try assumption. lia.
Qed.

Lemma growth_series_monotone_witness :
  exists d,
    _create_compound_interest_chart 10000 500 7 2 = Ok d /\
    years_data d = [0; 1; 2]%Z /\
    Forall (fun v => 0 <= v) (total_values d).
Proof.
  destruct (growth_series_monotone 10000 500 7 2)
    as (d & Hd & _ & Hy & _ & _ & Ht & _); try lra; try lia.
  exists d. split; [exact Hd |]. split; [| exact Ht].
  rewrite chart_ok in Hd. inversion Hd. reflexivity.
Defined.

Lemma growth_point_formula_witness :
  exists d pv cv,
    _create_compound_interest_chart 10000 500 0 3 = Ok d /\
    principal_values d !! 2%nat = Some pv /\
    contribution_values d !! 2%nat = Some cv /\
    pv == 10000 /\ cv == 12000.
Proof.
  destruct (growth_point_formula 10000 500 0 3 2)
    as (d & pv & cv & tv & Hd & _ & Hp & Hc & _ & E1 & _ & E3 & _);
    try lra; try lia.
  exists d, pv, cv. repeat (split; [assumption |]). split.
  - rewrite E1. reflexivity.
  - rewrite E3; reflexivity.
Defined.

(** ** Amortization schedule: the rows *)

(** One pass of the loop, unfolded. *)
Lemma amortization_loop_cons (r : Q) (month : Z) (rest : list Z) (b P : Q) :
  amortization_loop r (month :: rest) b P =
  let clamp := gt (P - b * r) b in
  let principal := if clamp then b else P - b * r in
  let payment := if clamp then principal + b * r else P in
  {| Month := month; Payment := payment; Principal := principal;
     Interest := b * r; Balance := b - principal |}
  :: (if le (b - principal) 0 then []
      else amortization_loop r rest (b - principal) payment).
Proof. reflexivity. Qed.

Ltac rows_simpl :=
  cbn [Month Payment Principal Interest Balance];
  repeat split; intros; try reflexivity; try discriminate.

(** After a clamped row the balance is 0 and the loop stops, so the payment
    the loop carries from one pass to the next never changes. *)
Lemma amortization_loop_tail (r : Q) (month : Z) (rest : list Z) (b P : Q) :
  exists row,
    amortization_loop r (month :: rest) b P =
    row :: (if le (Balance row) 0 then []
            else amortization_loop r rest (Balance row) P) /\
    Month row = month /\
    Interest row = b * r /\
    (gt (P - b * r) b = true ->
     Principal row = b /\ Payment row = Principal row + Interest row) /\
    (gt (P - b * r) b = false ->
     Principal row = P - b * r /\ Payment row = P) /\
    Balance row = b - Principal row.
Proof.
  rewrite amortization_loop_cons. cbv zeta.
  destruct (gt (P - b * r) b) eqn:Hclamp.
  - assert (Hz : le (b - b) 0 = true) by (apply le_true; lra).
    exists {| Month := month; Payment := b + b * r; Principal := b;
              Interest := b * r; Balance := b - b |}.
    split.
    + cbn [Balance]. rewrite Hz. reflexivity.
    + rows_simpl.
  - exists {| Month := month; Payment := P; Principal := P - b * r;
              Interest := b * r; Balance := b - (P - b * r) |}.
    split.
    + reflexivity.
    + rows_simpl.
Qed.

Lemma amortization_loop_rows (r P : Q) (months : list Z) :
  forall (b : Q) (k : nat) (row : PaymentRecord),
    let s := amortization_loop r months b P in
    s !! k = Some row ->
    let b_prev := balance_before b s k in
    months !! k = Some (Month row) /\
    Interest row = b_prev * r /\
    (gt (P - Interest row) b_prev = true ->
     Principal row = b_prev /\ Payment row = Principal row + Interest row) /\
    (gt (P - Interest row) b_prev = false ->
     Principal row = P - Interest row /\ Payment row = P) /\
    Balance row = b_prev - Principal row /\
    (Balance row <= 0 -> s !! S k = None) /\
    (0 < Balance row -> is_Some (months !! S k) -> is_Some (s !! S k)).
Proof.
  induction months as [| month rest IH]; intros b k row s Hk b_prev.
  - discriminate.
  - destruct (amortization_loop_tail r month rest b P)
      as (row0 & Hs & Hm & Hi & Hc & Hn & Hb).
    subst s b_prev. rewrite Hs in *.
    destruct k as [| k].
    + cbn in Hk. injection Hk as <-. cbn [balance_before lookup list_lookup].
      rewrite Hi in Hc |- *. rewrite Hm.
      do 5 (split; [reflexivity || assumption |]). split.
      * intros Hle. apply le_true in Hle. rewrite Hle. reflexivity.
      * intros Hpos Hnext. apply le_false in Hpos. rewrite Hpos.
        destruct rest as [| month' rest']; [destruct Hnext; discriminate |].
        rewrite amortization_loop_cons. cbv zeta. eexists. reflexivity.
    + cbn [lookup list_lookup] in Hk |- *.
      destruct (le (Balance row0) 0) eqn:Hstop; [discriminate |].
      specialize (IH (Balance row0) k row Hk). cbv zeta in IH.
      replace (balance_before b
                 (row0 :: amortization_loop r rest (Balance row0) P) (S k))
        with (balance_before (Balance row0)
                (amortization_loop r rest (Balance row0) P) k).
      * exact IH.
      * destruct k; reflexivity.
Qed.

Lemma amortization_loop_length (r : Q) (months : list Z) (b P : Q) :
  (length (amortization_loop r months b P) <= length months)%nat.
Proof.
  revert b P. induction months as [| month rest IH]; intros b P.
  - reflexivity.
  - rewrite amortization_loop_cons. cbv zeta. cbn [length].
    destruct (le _ 0); [cbn; lia |]. apply le_n_S, IH.
Qed.

Lemma amortization_loop_balanced (r : Q) (months : list Z) (b P : Q) :
  Forall (fun row => Payment row == Principal row + Interest row)
    (amortization_loop r months b P).
Proof.
  revert b P. induction months as [| month rest IH]; intros b P.
  - constructor.
  - rewrite amortization_loop_cons. cbv zeta. constructor.
    + cbn. destruct (gt (P - b * r) b); ring.
    + destruct (le _ 0); [constructor | apply IH].
Qed.


Lemma range_lookup_Some (start stop : Z) (i : nat) (x : Z) :
  range start stop !! i = Some x ->
  x = (start + Z.of_nat i)%Z /\ (i < Z.to_nat (stop - start))%nat.
Proof.
  intros H. pose proof (lookup_lt_Some _ _ _ H) as Hlt.
  rewrite range_length in Hlt. rewrite range_lookup in H by exact Hlt.
  split; [congruence | exact Hlt].
Qed.

(** C4.  For a loan amount > 0, a rate >= 0, a term >= 1 and any level
    payment, row number [k] (counted from 0) is the period [k + 1 <= N],
    [N = term * 12]: its interest is the balance before the period times the
    monthly rate; its principal portion is the payment minus that interest,
    unless this exceeds the balance before, in which case the principal
    portion is that balance and the recorded payment is principal plus
    interest; its balance is the balance before minus the principal portion.
    A row whose balance is <= 0 is the last one, a row whose balance is > 0
    is followed by the next period as long as there is one, and there are at
    most [N] rows. *)
Theorem schedule_recurrence
    (loan_amount interest_rate : Q) (loan_term : Z) (monthly_payment : Q) :
  0 < loan_amount -> 0 <= interest_rate -> (1 <= loan_term)%Z ->
  let r := interest_rate / 100 / 12 in
  let N := (loan_term * 12)%Z in
  let s :=
    _create_amortization_schedule
      loan_amount interest_rate loan_term monthly_payment in
  (forall (k : nat) (row : PaymentRecord),
     s !! k = Some row ->
     let b_prev := balance_before loan_amount s k in
     Month row = (Z.of_nat k + 1)%Z /\
     (Month row <= N)%Z /\
     Interest row = b_prev * r /\
     (b_prev < monthly_payment - Interest row ->
      Principal row = b_prev /\
      Payment row = Principal row + Interest row) /\
     (monthly_payment - Interest row <= b_prev ->
      Principal row = monthly_payment - Interest row /\
      Payment row = monthly_payment) /\
     Balance row = b_prev - Principal row /\
     (Balance row <= 0 -> s !! S k = None) /\
     (0 < Balance row -> (Z.of_nat (S k) < N)%Z -> is_Some (s !! S k))) /\
  is_Some (s !! 0%nat) /\
  (Z.of_nat (length s) <= N)%Z.
Proof.
  intros _ _ Hterm r N s. split; [| split].
  - intros k row Hk b_prev.
    destruct (amortization_loop_rows r monthly_payment (range 1 (N + 1))
                loan_amount k row Hk)
      as (Hm & Hi & Hc & Hn & Hb & Hstop & Hnext).
    fold s in Hi, Hc, Hn, Hb, Hstop, Hnext. fold b_prev in Hi, Hc, Hn, Hb.
    apply range_lookup_Some in Hm. destruct Hm as [Hm Hlt].
    split; [lia |]. split; [lia |]. split; [exact Hi |].
    split; [| split; [| split; [| split]]].
    + intros Hgt. apply Hc, gt_true, Hgt.
    + intros Hle. apply Hn, gt_false, Hle.
    + exact Hb.
    + exact Hstop.
    + intros Hpos Hlt'. apply Hnext; [exact Hpos |].
      rewrite range_lookup by lia. eexists. reflexivity.
  - subst s. unfold _create_amortization_schedule.
    fold r. fold N.
    destruct (range 1 (N + 1)) as [| month rest] eqn:E.
    + apply (f_equal length) in E. rewrite range_length in E.
      cbn in E. lia.
    + rewrite amortization_loop_cons. cbv zeta. eexists. reflexivity.
  - subst s. unfold _create_amortization_schedule.
    pose proof (amortization_loop_length r (range 1 (N + 1))
                  loan_amount monthly_payment) as Hlen.
    rewrite range_length in Hlen. fold r. fold N. lia.
Qed.

Lemma schedule_recurrence_witness :
  exists row,
    _create_amortization_schedule 1000 0 1 300 !! 3%nat = Some row /\
    Month row = 4%Z /\
    Principal row = balance_before 1000 (_create_amortization_schedule 1000 0 1 300) 3 /\
    Payment row = Principal row + Interest row /\
    _create_amortization_schedule 1000 0 1 300 !! 4%nat = None.
Proof.
  assert (Hrow : is_Some (_create_amortization_schedule 1000 0 1 300 !! 3%nat))
    by (eexists; reflexivity).
  destruct Hrow as [row Hrow]. exists row.
  destruct (schedule_recurrence 1000 0 1 300) as [H _];
    [reflexivity | discriminate | lia |].
  destruct (H 3%nat row Hrow) as (Hm & _ & Hi & Hc & _ & Hb & Hstop & _).
  assert (Hgt : balance_before 1000 (_create_amortization_schedule 1000 0 1 300) 3
                < 300 - Interest row).
  { rewrite Hi. reflexivity. }
  destruct (Hc Hgt) as [Hp Hpay].
  split; [exact Hrow |]. split; [exact Hm |]. split; [exact Hp |].
  split; [exact Hpay |].
  apply Hstop. rewrite Hb, Hp. lra.
Defined.

(** ** Amortization schedule: the level payment pays the loan off *)

Section LevelPayment.

(** A sequence [B] that the balances follow: it obeys the recurrence of the
    loop, stays positive and strictly decreasing for [n] periods and
    reaches 0 at period [n]. *)
Variables (r P : Q) (n : nat) (B : nat -> Q).
Hypothesis B_step :
  forall k, (k < n)%nat -> B (S k) == B k - (P - B k * r).
Hypothesis B_pos : forall k, (k < n)%nat -> 0 < B k.
Hypothesis B_end : B n == 0.

Lemma B_nonneg (k : nat) : (k <= n)%nat -> 0 <= B k.
Proof.
  intros Hk. destruct (Nat.eq_dec k n) as [-> | Hne].
  - rewrite B_end. lra.
  - apply Qlt_le_weak, B_pos. lia.
Qed.

Lemma loop_follows :
  forall (months : list Z) (k : nat) (b : Q),
    (k + length months = n)%nat -> months <> [] -> b == B k ->
    let s := amortization_loop r months b P in
    length s = length months /\
    principal_sum s == B k /\
    (forall j row, s !! j = Some row -> Balance row == B (k + S j)).
Proof.
  induction months as [| month rest IH]; intros k b Hlen Hne Hb s;
    [contradiction |].
  cbn [length] in Hlen.
  destruct (amortization_loop_tail r month rest b P)
    as (row0 & Hs & _ & _ & _ & Hn & Hbal).
  assert (Hbr : b * r == B k * r) by (rewrite Hb; reflexivity).
  pose proof (B_step k ltac:(lia)) as Hstep.
  pose proof (B_nonneg (S k) ltac:(lia)) as Hnext.
  assert (Hnoclamp : gt (P - b * r) b = false) by (apply gt_false; lra).
  destruct (Hn Hnoclamp) as [Hp _].
  assert (Hb0 : Balance row0 == B (S k)) by (rewrite Hbal, Hp; lra).
  assert (Hp0 : Principal row0 == B k - B (S k)) by (rewrite Hp; lra).
  subst s. rewrite Hs.
  destruct rest as [| month' rest'].
  - cbn [length] in Hlen.
    assert (Hk : S k = n) by lia.
    assert (Hz : le (Balance row0) 0 = true).
    { apply le_true. rewrite Hb0, Hk, B_end. lra. }
    rewrite Hz. split; [reflexivity |]. split.
    + cbn [principal_sum fold_right]. rewrite Hp0, Hk, B_end. ring.
    + intros [| j] row Hj; [| discriminate].
      injection Hj as <-. rewrite Hb0. replace (k + 1)%nat with (S k) by lia.
      reflexivity.
  - cbn [length] in Hlen.
    assert (Hz : le (Balance row0) 0 = false).
    { apply le_false. rewrite Hb0. apply B_pos. lia. }
    rewrite Hz.
    destruct (IH (S k) (Balance row0) ltac:(cbn [length]; lia)
                ltac:(discriminate) Hb0) as (Hl & Hsum & Hrows).
    split; [cbn [length] in Hl |- *; lia |]. split.
    + change (principal_sum (row0 :: ?t))
        with (Principal row0 + principal_sum t).
      rewrite Hsum, Hp0. ring.
    + intros [| j] row Hj.
      * injection Hj as <-. rewrite Hb0.
        replace (k + 1)%nat with (S k) by lia. reflexivity.
      * cbn [lookup list_lookup] in Hj. rewrite (Hrows j row Hj).
        replace (S k + S j)%nat with (k + S (S j))%nat by lia. reflexivity.
Qed.

End LevelPayment.

Section ClosedForm.

(** The unclamped balances in closed form: [B k * D = L * (A n - A k)] for
    a positive [D] and an increasing [A]. *)
Variables (L r P D : Q) (n : nat) (A : nat -> Q).
Hypothesis L_pos : 0 < L.
Hypothesis D_pos : 0 < D.
Hypothesis A_incr : forall k, (k < n)%nat -> A k < A (S k).
Hypothesis closed_form :
  forall k, (k <= n)%nat -> ideal_balance L r P k * D == L * (A n - A k).

Lemma A_lt (j : nat) : forall k, (k < j <= n)%nat -> A k < A j.
Proof.
  induction j as [| j IH]; intros k Hk; [lia |].
  destruct (Nat.eq_dec k j) as [-> | Hne].
  - apply A_incr. lia.
  - apply Qlt_trans with (A j); [apply IH; lia | apply A_incr; lia].
Qed.

Lemma ideal_pos (k : nat) : (k < n)%nat -> 0 < ideal_balance L r P k.
Proof.
  intros Hk. pose proof (closed_form k ltac:(lia)) as Hc.
  pose proof (A_lt n k ltac:(lia)) as Ha.
  assert (Hprod : 0 < ideal_balance L r P k * D) by (rewrite Hc; nra).
  nra.
Qed.

Lemma ideal_end : ideal_balance L r P n == 0.
Proof.
  pose proof (closed_form n ltac:(lia)) as Hc.
  assert (Hprod : ideal_balance L r P n * D == 0) by (rewrite Hc; ring).
  nra.
Qed.

Lemma ideal_dec (k : nat) :
  (k < n)%nat -> ideal_balance L r P (S k) < ideal_balance L r P k.
Proof.
  intros Hk. pose proof (closed_form k ltac:(lia)) as Hc.
  pose proof (closed_form (S k) ltac:(lia)) as Hc'.
  pose proof (A_incr k Hk) as Ha.
  assert (Hprod : ideal_balance L r P (S k) * D < ideal_balance L r P k * D)
    by (rewrite Hc, Hc'; nra).
  nra.
Qed.

Lemma level_payment_schedule (months : list Z) :
  length months = n -> (1 <= n)%nat ->
  let s := amortization_loop r months L P in
  length s = n /\
  principal_sum s == L /\
  (forall j row, s !! j = Some row -> Balance row < balance_before L s j) /\
  Forall (fun row => 0 <= Balance row) s /\
  (exists row, last s = Some row /\ Balance row == 0).
Proof.
  intros Hlen Hn s.
  destruct (loop_follows r P n (ideal_balance L r P)
              ltac:(intros; reflexivity) ideal_pos ideal_end
              months 0%nat L ltac:(lia)
              ltac:(intros ->; cbn in Hlen; lia) ltac:(reflexivity))
    as (Hl & Hsum & Hrows).
  fold s in Hl, Hsum, Hrows. cbn [Nat.add] in Hrows.
  change (ideal_balance L r P 0) with L in Hsum.
  assert (Hbefore : forall j, (j < n)%nat ->
            balance_before L s j == ideal_balance L r P j).
  { intros [| j] Hj; [reflexivity |]. cbn [balance_before].
    destruct (s !! j) as [row |] eqn:E.
    - apply Hrows, E.
    - apply lookup_ge_None in E. lia. }
  split; [lia |]. split; [exact Hsum |]. split; [| split].
  - intros j row Hj.
    assert (Hjn : (j < n)%nat) by (apply lookup_lt_Some in Hj; lia).
    rewrite (Hrows j row Hj), (Hbefore j Hjn). apply ideal_dec, Hjn.
  - apply Forall_forall. intros row Hrow.
    apply list_elem_of_lookup in Hrow. destruct Hrow as [j Hj].
    assert (Hjn : (j < n)%nat) by (apply lookup_lt_Some in Hj; lia).
    rewrite (Hrows j row Hj).
    apply (B_nonneg n (ideal_balance L r P) ideal_pos ideal_end (S j)).
    lia.
  - rewrite last_lookup, Hl, Hlen.
    destruct (s !! Nat.pred n) as [row |] eqn:E.
    + exists row. split; [reflexivity |].
      rewrite (Hrows _ row E).
      replace (S (Nat.pred n)) with n by lia. apply ideal_end.
    + apply lookup_ge_None in E. lia.
Qed.

End ClosedForm.

(** With interest: [B k * (q^N - 1) = L * (q^N - q^k)] for [q = 1 + r]. *)
Lemma closed_form_interest (L r P : Q) (N : Z) :
  0 < r ->
  P * ((1 + r) ^ N - 1) == L * (r * (1 + r) ^ N) ->
  forall k : nat,
    ideal_balance L r P k * ((1 + r) ^ N - 1)
    == L * ((1 + r) ^ N - (1 + r) ^ Z.of_nat k).
Proof.
  intros Hr HP. induction k as [| k IH].
  - cbn [ideal_balance]. change ((1 + r) ^ Z.of_nat 0) with 1. ring.
  - cbn [ideal_balance].
    set (b := ideal_balance L r P k) in *.
    assert (Hq : (1 + r) ^ Z.of_nat (S k) == (1 + r) ^ Z.of_nat k * (1 + r)).
    { rewrite Nat2Z.inj_succ, <- Z.add_1_r, Qpower_plus by lra.
      rewrite Qpower_1_r. reflexivity. }
    rewrite Hq.
    assert (E : (b - (P - b * r)) * ((1 + r) ^ N - 1)
                == b * ((1 + r) ^ N - 1) * (1 + r) - P * ((1 + r) ^ N - 1))
      by ring.
    rewrite E, IH, HP. ring.
Qed.

(** Without interest: [B k * N = L * (N - k)]. *)
Lemma closed_form_no_interest (L r P : Q) (N : Z) :
  r == 0 ->
  P * inject_Z N == L ->
  forall k : nat,
    ideal_balance L r P k * inject_Z N
    == L * (inject_Z N - inject_Z (Z.of_nat k)).
Proof.
  intros Hr HP. induction k as [| k IH].
  - cbn [ideal_balance]. change (inject_Z (Z.of_nat 0)) with 0. ring.
  - cbn [ideal_balance].
    set (b := ideal_balance L r P k) in *.
    rewrite Nat2Z.inj_succ, <- Z.add_1_r, inject_Z_plus.
    change (inject_Z 1) with 1.
    assert (E : (b - (P - b * r)) * inject_Z N
                == b * inject_Z N - P * inject_Z N + b * inject_Z N * r)
      by ring.
    rewrite E, IH, HP, Hr. ring.
Qed.

Lemma growth_gt_1 (r : Q) (m : Z) : 0 < r -> (0 < m)%Z -> 1 < (1 + r) ^ m.
Proof. intros Hr Hm. apply Qpower_1_lt; [lra | exact Hm]. Qed.

Lemma quotient_times_divisor (x y : Q) : 0 < y -> x / y * y == x.
Proof. intros Hy. field. lra. Qed.

Lemma monthly_payment_interest (L rate : Q) (term : Z) :
  0 < rate / 100 / 12 -> (1 <= term)%Z ->
  let r := rate / 100 / 12 in
  let g := (1 + r) ^ (term * 12) in
  monthly_payment_of L rate term = Ok (L * (r * g) / (g - 1)) /\
  L * (r * g) / (g - 1) * (g - 1) == L * (r * g) /\
  0 < g - 1.
Proof.
  intros Hr Hterm r g.
  assert (Hg : 1 < g) by (apply growth_gt_1; [exact Hr | lia]).
  assert (Hg1 : 0 < g - 1).
  { clearbody g. lra. }
  split; [| split].
  - unfold monthly_payment_of. fold r.
    assert (Hgt : gt r 0 = true) by (apply gt_true; exact Hr).
    rewrite Hgt, (pow_ok (1 + r) (term * 12)) by lia. run_bind.
    fold g. apply truediv_ok. clearbody g. lra.
  - apply quotient_times_divisor, Hg1.
  - exact Hg1.
Qed.

Lemma monthly_payment_no_interest (L rate : Q) (term : Z) :
  rate / 100 / 12 <= 0 -> (1 <= term)%Z ->
  let N := inject_Z (term * 12) in
  monthly_payment_of L rate term = Ok (L / N) /\
  L / N * N == L /\
  0 < N.
Proof.
  intros Hr Hterm N.
  assert (HN : 0 < N).
  { subst N. change 0 with (inject_Z 0). rewrite <- Zlt_Qlt. lia. }
  split; [| split].
  - unfold monthly_payment_of.
    assert (Hgt : gt (rate / 100 / 12) 0 = false) by (apply gt_false; exact Hr).
    rewrite Hgt. apply truediv_ok. fold N. clearbody N. lra.
  - apply quotient_times_divisor, HN.
  - exact HN.
Qed.

(** In exact arithmetic the level payment never triggers the clamp: the
    schedule has all [term * 12] rows, the principal portions add up to the
    loan amount, the balance falls strictly at every row, and the last
    balance is 0. *)
Lemma schedule_exact (L rate : Q) (term : Z) :
  0 < L -> 0 <= rate -> (1 <= term)%Z ->
  exists s,
    loan_calculator L rate term = Ok s /\
    Z.of_nat (length s) = (term * 12)%Z /\
    principal_sum s == L /\
    (forall j row, s !! j = Some row -> Balance row < balance_before L s j) /\
    Forall (fun row => 0 <= Balance row) s /\
    (exists row, last s = Some row /\ Balance row == 0).
Proof.
  intros HL Hrate Hterm.
  pose proof (monthly_rate_nonneg rate Hrate) as Hr0.
  set (r := rate / 100 / 12) in *.
  set (N := (term * 12)%Z).
  set (n := Z.to_nat N).
  assert (Hn : (1 <= n)%nat) by (subst n N; lia).
  assert (Hmonths : length (range 1 (N + 1)) = n).
  { rewrite range_length. subst n. f_equal. lia. }
  unfold loan_calculator.
  destruct (Qlt_le_dec 0 r) as [Hpos | Hzero].
  - destruct (monthly_payment_interest L rate term Hpos Hterm)
      as (HP & HPeq & Hg).
    fold r N in HP, HPeq, Hg.
    set (P := L * (r * (1 + r) ^ N) / ((1 + r) ^ N - 1)) in *.
    rewrite HP. run_bind. eexists. split; [reflexivity |].
    destruct (level_payment_schedule L r P ((1 + r) ^ N - 1) n
                (fun k => (1 + r) ^ Z.of_nat k) HL Hg) with
      (months := range 1 (N + 1)) as (Hl & Hrest); try assumption.
    + intros k Hk. apply Qpower_lt_compat_l; [lia | lra].
    + intros k _. cbv beta. subst n. rewrite Z2Nat.id by (subst N; lia).
      apply closed_form_interest; assumption.
    + split; [| exact Hrest].
      unfold _create_amortization_schedule. fold r N. rewrite Hl.
      subst n. rewrite Z2Nat.id; [reflexivity | subst N; lia].
  - destruct (monthly_payment_no_interest L rate term Hzero Hterm)
      as (HP & HPeq & HN).
    fold N in HP, HPeq, HN.
    set (P := L / inject_Z N) in *.
    rewrite HP. run_bind. eexists. split; [reflexivity |].
    destruct (level_payment_schedule L r P (inject_Z N) n
                (fun k => inject_Z (Z.of_nat k)) HL HN) with
      (months := range 1 (N + 1)) as (Hl & Hrest); try assumption.
    + intros k Hk. rewrite <- Zlt_Qlt. lia.
    + intros k _. cbv beta. subst n. rewrite Z2Nat.id by (subst N; lia).
      apply closed_form_no_interest; [lra | assumption].
    + split; [| exact Hrest].
      unfold _create_amortization_schedule. fold r N. rewrite Hl.
      subst n. rewrite Z2Nat.id; [reflexivity | subst N; lia].
Qed.



(** * More of the code *)

(** ** Budget tracker: recording expenses and summarising them *)

Lemma group_sums_snoc (rows : list Expense) (e : Expense) :
  group_sums (rows ++ [e]) =
  <[category e := default 0 (group_sums rows !! category e) + amount e]>
    (group_sums rows).
Proof. unfold group_sums. rewrite fold_left_app. reflexivity. Qed.

Lemma get_budget_summary_rows (rows : list Expense) :
  get_budget_summary {| budget_data := Some rows |} =
  {| total := fold_left (fun s row => s + amount row) rows 0;
     categories := group_sums rows;
     count := Z.of_nat (length rows) |}.
Proof. destruct rows; reflexivity. Qed.

Lemma get_budget_summary_default (s : SessionState) :
  get_budget_summary s =
  get_budget_summary {| budget_data := Some (default [] (budget_data s)) |}.
Proof. destruct s as [[rows |]]; reflexivity. Qed.

(** X1.  Recording an expense raises the count of the summary by one and
    its total by the amount; the sum of the expense's category grows by the
    amount (from 0 when the category is new) and every other category keeps
    its sum.  This holds from any session state, the key [budget_data]
    absent included. *)
Theorem summary_after_add_expense
    (today : string) (a : Q) (c d : string) (s : SessionState) :
  let before := get_budget_summary s in
  let after := get_budget_summary (add_expense today a c d s) in
  count after = (count before + 1)%Z /\
  total after = total before + a /\
  categories after !! c = Some (default 0 (categories before !! c) + a) /\
  (forall c', c' <> c -> categories after !! c' = categories before !! c').
Proof.
  intros before after. subst before after.
  rewrite (get_budget_summary_default s). unfold add_expense.
  set (rows := default [] (budget_data s)).
  rewrite !get_budget_summary_rows.
  cbn [count total categories].
  rewrite group_sums_snoc, fold_left_app, length_app.
  cbn [fold_left length category amount].
  split; [lia |]. split; [reflexivity |]. split.
  - apply lookup_insert_eq.
  - intros c' Hc'. apply lookup_insert_ne. congruence.
Qed.

Lemma summary_after_add_expense_witness :
  let s :=
    add_expense "2024-05-01" 25 "Food" "lunch" {| budget_data := None |} in
  count (get_budget_summary s) = 1%Z /\
  categories (get_budget_summary s) !! "Housing"%string = None.
Proof.
  destruct (summary_after_add_expense "2024-05-01" 25 "Food" "lunch"
              {| budget_data := None |}) as (Hcount & _ & _ & Hother).
  split; [exact Hcount |].
  rewrite (Hother "Housing"%string) by discriminate. reflexivity.
Defined.

Lemma category_total_snoc (c : string) (rows : list Expense) (e : Expense) :
  category_total c (rows ++ [e]) =
  if decide (category e = c) then category_total c rows + amount e
  else category_total c rows.
Proof. unfold category_total. rewrite fold_left_app. reflexivity. Qed.

Lemma category_total_absent (c : string) (rows : list Expense) :
  c ∉ map category rows -> category_total c rows = 0.
Proof.
  induction rows as [| e rows IH] using rev_ind; intros Hc; [reflexivity |].
  rewrite category_total_snoc. rewrite map_app, elem_of_app in Hc.
  destruct (decide (category e = c)) as [<- | _].
  - exfalso. apply Hc. right. cbn. left.
  - apply IH. intros H. apply Hc. left. exact H.
Qed.

(** X2.  The category map of the summary has exactly the categories that
    occur in the ledger, and the sum it holds for a category is the sum of
    the amounts of the expenses of that category. *)
Theorem group_sums_by_category (rows : list Expense) (c : string) :
  group_sums rows !! c =
  if bool_decide (c ∈ map category rows) then Some (category_total c rows)
  else None.
Proof.
  induction rows as [| e rows IH] using rev_ind.
  - reflexivity.
  - rewrite group_sums_snoc, category_total_snoc, map_app. cbn [map].
    destruct (decide (category e = c)) as [<- | Hne].
    + assert (Hlast : category e ∈ map category rows ++ [category e])
        by (apply elem_of_app; right; apply list_elem_of_here).
      rewrite lookup_insert_eq, IH, (bool_decide_eq_true_2 _ Hlast).
      f_equal. case_bool_decide as Hin; [reflexivity |].
      rewrite (category_total_absent _ _ Hin). reflexivity.
    + rewrite lookup_insert_ne by exact Hne. rewrite IH.
      assert (Hiff : c ∈ map category rows
                     <-> c ∈ map category rows ++ [category e]).
      { rewrite elem_of_app, list_elem_of_singleton. split; [tauto |].
        intros [H | H]; [exact H | congruence]. }
      rewrite (bool_decide_ext _ _ Hiff). reflexivity.
Qed.

Lemma categories_total_insert (m : gmap string Q) (c : string) (a : Q) :
  categories_total (<[c := default 0 (m !! c) + a]> m)
  == categories_total m + a.
Proof.
  unfold categories_total.
  assert (Hproper : forall (j : string) (z : Q),
            Proper (Qeq ==> Qeq) (fun acc => z + acc)).
  { intros j z x y Hxy. rewrite Hxy. reflexivity. }
  assert (Hcomm : forall (m' : gmap string Q) (j1 j2 : string) (z1 z2 y : Q),
            j1 <> j2 -> m' !! j1 = Some z1 -> m' !! j2 = Some z2 ->
            z1 + (z2 + y) == z2 + (z1 + y)).
  { intros. ring. }
  destruct (m !! c) as [v |] eqn:E.
  - cbn [default].
    rewrite <- (insert_delete_eq m c (v + a)).
    rewrite (map_fold_insert Qeq (fun _ v acc => v + acc) 0 c (v + a)
               (delete c m) Hproper (Hcomm _) (lookup_delete_eq m c)).
    rewrite (map_fold_delete Qeq (fun _ v acc => v + acc) 0 c v m
               Hproper (Hcomm _) E).
    ring.
  - cbn [default].
    rewrite (map_fold_insert Qeq (fun _ v acc => v + acc) 0 c (0 + a) m
               Hproper (Hcomm _) E).
    ring.
Qed.

Lemma categories_total_group_sums (rows : list Expense) :
  categories_total (group_sums rows)
  == fold_left (fun s row => s + amount row) rows 0.
Proof.
  induction rows as [| e rows IH] using rev_ind.
  - unfold categories_total, group_sums. cbn [fold_left].
    rewrite map_fold_empty. reflexivity.
  - rewrite group_sums_snoc, categories_total_insert, IH, fold_left_app.
    reflexivity.
Qed.

(** X3.  In every summary the sums of the categories add up to the total,
    and the count is the number of recorded expenses. *)
Theorem summary_categories_add_up (s : SessionState) :
  categories_total (categories (get_budget_summary s))
  == total (get_budget_summary s) /\
  count (get_budget_summary s)
  = Z.of_nat (length (default [] (budget_data s))).
Proof.
  rewrite (get_budget_summary_default s), get_budget_summary_rows.
  cbn [categories total count]. split.
  - apply categories_total_group_sums.
  - reflexivity.
Qed.



(** ** Investment advisor: the recommendation and its expected return *)

Lemma risk_profiles_cases (name : string) (base : Allocation) :
  risk_profiles !! name = Some base ->
  (name = "conservative"%string /\ stocks base = 30%Z \/
   name = "moderate"%string /\ stocks base = 50%Z \/
   name = "aggressive"%string /\ stocks base = 70%Z) /\
  bonds base = (90 - stocks base)%Z /\ cash base = 10%Z.
Proof.
  unfold risk_profiles. intros H.
  destruct (decide (name = "conservative"%string)) as [-> | H1].
  { rewrite lookup_insert_eq in H. injection H as <-. cbn. tauto. }
  rewrite lookup_insert_ne in H by congruence.
  destruct (decide (name = "moderate"%string)) as [-> | H2].
  { rewrite lookup_insert_eq in H. injection H as <-. cbn. tauto. }
  rewrite lookup_insert_ne in H by congruence.
  destruct (decide (name = "aggressive"%string)) as [-> | H3].
  { rewrite lookup_singleton_eq in H. injection H as <-. cbn. tauto. }
  rewrite lookup_singleton_ne in H by congruence. discriminate.
Qed.

Lemma risk_profiles_unknown (name : string) :
  name <> "conservative"%string -> name <> "moderate"%string ->
  name <> "aggressive"%string ->
  risk_profiles !! name = None.
Proof.
  intros H1 H2 H3. destruct (risk_profiles !! name) as [base |] eqn:E;
    [| reflexivity].
  apply risk_profiles_cases in E. destruct E as [[[E _] | [[E _] | [E _]]] _];
    congruence.
Qed.

(** X5.  A risk tolerance other than the three profile names makes the
    recommendation raise [KeyError] with that name, whatever the age; a
    profile with no key at all is treated as moderate and 30 years old and
    gets 50/40/10. *)
Theorem recommendation_unknown_profile
    (name : string) (a inc : option Z) :
  name <> "conservative"%string -> name <> "moderate"%string ->
  name <> "aggressive"%string ->
  _get_portfolio_recommendation
    {| risk_tolerance := Some name; age := a; income := inc |}
  = Raise (KeyError name) /\
  exists d,
    _get_portfolio_recommendation
      {| risk_tolerance := None; age := None; income := None |}
    = Ok {| stocks := 50; bonds := 40; cash := 10;
            InvestmentAdvisor.description := d |}.
Proof.
  intros H1 H2 H3. split.
  - pose proof (risk_profiles_unknown name H1 H2 H3) as Hnone.
    unfold _get_portfolio_recommendation. simpl. rewrite Hnone.
    reflexivity.
  - eexists. reflexivity.
Qed.

Lemma recommendation_unknown_profile_witness :
  _get_portfolio_recommendation
    {| risk_tolerance := Some "balanced"%string; age := Some 40%Z;
       income := None |}
  = Raise (KeyError "balanced").
Proof.
  apply (recommendation_unknown_profile "balanced" (Some 40%Z) None);
    discriminate.
Defined.

(** X6.  For each profile in [risk_profiles], an older investor is never
    recommended more stocks nor fewer bonds than a younger one, and the
    recommended stock share is within 10 points of the base share of the
    profile. *)
Theorem recommendation_monotone_in_age
    (name : string) (base : Allocation) (a a' : Z) (inc : option Z) :
  risk_profiles !! name = Some base -> (a <= a')%Z ->
  exists young old,
    _get_portfolio_recommendation
      {| risk_tolerance := Some name; age := Some a; income := inc |}
    = Ok young /\
    _get_portfolio_recommendation
      {| risk_tolerance := Some name; age := Some a'; income := inc |}
    = Ok old /\
    (stocks old <= stocks young)%Z /\
    (bonds young <= bonds old)%Z /\
    (stocks base - 10 <= stocks young <= stocks base + 10)%Z.
Proof.
  intros Hb Ha.
  destruct (risk_profiles_cases name base Hb) as (Hs & _ & _).
  eexists. eexists.
  split; [apply (recommendation_of_base _ _ a inc Hb) |].
  split; [apply (recommendation_of_base _ _ a' inc Hb) |].
  cbn [stocks bonds]. unfold age_adjustment.
  destruct (a <? 30)%Z eqn:E1; destruct (a <? 50)%Z eqn:E2;
    destruct (a' <? 30)%Z eqn:E3; destruct (a' <? 50)%Z eqn:E4;
    lia.
Qed.

Lemma recommendation_monotone_in_age_witness :
  exists young old,
    _get_portfolio_recommendation
      {| risk_tolerance := Some "moderate"%string; age := Some 25%Z;
         income := None |} = Ok young /\
    _get_portfolio_recommendation
      {| risk_tolerance := Some "moderate"%string; age := Some 55%Z;
         income := None |} = Ok old /\
    (stocks old <= stocks young)%Z.
Proof.
  destruct (recommendation_monotone_in_age "moderate"
              {| stocks := 50; bonds := 40; cash := 10;
                 InvestmentAdvisor.description :=
                   "Balanced risk and return, steady growth" |}
              25 55 None)
    as (young & old & H1 & H2 & H3 & _).
  - reflexivity.
  - lia.
  - exists young, old. repeat split; assumption.
Defined.

Lemma inject_Z_minus (x y : Z) : inject_Z (x - y) == inject_Z x - inject_Z y.
Proof.
  unfold Z.sub. rewrite inject_Z_plus, inject_Z_opp. ring.
Qed.

Lemma Qdiv_100_between (lo hi y : Q) :
  lo * 100 <= y -> y <= hi * 100 -> lo <= y / 100 /\ y / 100 <= hi.
Proof.
  intros Hlo Hhi. split.
  - apply Qle_shift_div_l; [reflexivity | exact Hlo].
  - apply Qle_shift_div_r; [reflexivity | exact Hhi].
Qed.

(** X7.  For an allocation whose three shares are non-negative and add up
    to 100, the expected return is a weighted average of the three asset
    returns: it lies between the cash return 2 and the stock return 8.5. *)
Theorem expected_return_is_weighted_average (allocation : Allocation) :
  (0 <= stocks allocation)%Z -> (0 <= bonds allocation)%Z ->
  (0 <= cash allocation)%Z ->
  (stocks allocation + bonds allocation + cash allocation = 100)%Z ->
  2 <= _calculate_expected_return allocation /\
  _calculate_expected_return allocation <= 8.5.
Proof.
  intros Hs Hb Hc Hsum. unfold _calculate_expected_return. cbv zeta.
  assert (Ec : inject_Z (cash allocation)
               == 100 - inject_Z (stocks allocation)
                  - inject_Z (bonds allocation)).
  { replace (cash allocation)
      with (100 - stocks allocation - bonds allocation)%Z by lia.
    rewrite !inject_Z_minus. reflexivity. }
  assert (Qs : 0 <= inject_Z (stocks allocation))
    by (change 0 with (inject_Z 0); rewrite <- Zle_Qle; exact Hs).
  assert (Qb : 0 <= inject_Z (bonds allocation))
    by (change 0 with (inject_Z 0); rewrite <- Zle_Qle; exact Hb).
  assert (Qc : 0 <= inject_Z (cash allocation))
    by (change 0 with (inject_Z 0); rewrite <- Zle_Qle; exact Hc).
  apply Qdiv_100_between; lra.
Qed.

Lemma expected_return_is_weighted_average_witness :
  2 <= _calculate_expected_return
         {| stocks := 0; bonds := 0; cash := 100;
            InvestmentAdvisor.description := "" |} /\
  _calculate_expected_return
    {| stocks := 100; bonds := 0; cash := 0;
       InvestmentAdvisor.description := "" |} <= 8.5.
Proof.
  split.
  - apply (expected_return_is_weighted_average
             {| stocks := 0; bonds := 0; cash := 100;
                InvestmentAdvisor.description := "" |}); cbn; lia.
  - apply (expected_return_is_weighted_average
             {| stocks := 100; bonds := 0; cash := 0;
                InvestmentAdvisor.description := "" |}); cbn; lia.
Defined.

(** X8.  For each profile in [risk_profiles] and every age, the expected
    return printed with the recommendation is (4.5 * stocks + 380) / 100 for
    the recommended stock share, hence between 4.7 and 7.4. *)
Theorem recommended_return_bounds
    (name : string) (base : Allocation) (a : Z) (inc : option Z) :
  risk_profiles !! name = Some base ->
  exists alloc x,
    _get_portfolio_recommendation
      {| risk_tolerance := Some name; age := Some a; income := inc |}
    = Ok alloc /\
    portfolio_expected_return
      {| risk_tolerance := Some name; age := Some a; income := inc |}
    = Ok x /\
    x == (4.5 * inject_Z (stocks alloc) + 380) / 100 /\
    4.7 <= x /\ x <= 7.4.
Proof.
  intros Hb.
  destruct (risk_profiles_cases name base Hb) as (_ & _ & Hcash).
  pose proof (recommendation_of_base name base a inc Hb) as Hrec.
  unfold portfolio_expected_return. rewrite Hrec.
  set (S := Z.max 20 (Z.min 80 (stocks base + age_adjustment a))) in *.
  assert (HS : (20 <= S <= 80)%Z) by (subst S; lia).
  eexists. eexists. split; [reflexivity |]. split; [reflexivity |].
  unfold _calculate_expected_return. cbn [stocks bonds cash]. cbv zeta.
  rewrite Hcash.
  assert (Eb : inject_Z (100 - S - 10) == 90 - inject_Z S).
  { rewrite !inject_Z_minus.
    change (inject_Z 100) with 100. change (inject_Z 10) with 10. ring. }
  assert (Q20 : 20 <= inject_Z S)
    by (change 20 with (inject_Z 20); rewrite <- Zle_Qle; lia).
  assert (Q80 : inject_Z S <= 80)
    by (change 80 with (inject_Z 80); rewrite <- Zle_Qle; lia).
  split.
  - rewrite Eb. change (inject_Z 10) with 10. field.
  - rewrite Eb. change (inject_Z 10) with 10.
    apply Qdiv_100_between; lra.
Qed.

Lemma recommended_return_bounds_witness :
  exists x,
    portfolio_expected_return
      {| risk_tolerance := Some "aggressive"%string; age := Some 25%Z;
         income := None |} = Ok x /\
    4.7 <= x /\ x <= 7.4.
Proof.
  destruct (recommended_return_bounds "aggressive"
              {| stocks := 70; bonds := 20; cash := 10;
                 InvestmentAdvisor.description :=
                   "Higher risk, potential for higher returns" |}
              25 None)
    as (alloc & x & _ & Hx & _ & Hlo & Hhi).
  - reflexivity.
  - exists x. repeat split; assumption.
Defined.

Lemma pow_nonzero_base (x : Q) (n : Z) : ~ x == 0 -> pow x n = Ok (x ^ n).
Proof.
  intros H. unfold pow. rewrite (Qeq_bool_false x 0 H). reflexivity.
Qed.

Lemma retirement_advice_ok (user_profile : UserProfile) :
  let a := default 30%Z (age user_profile) in
  let inc := default 50000%Z (income user_profile) in
  let saving := inject_Z inc / 12 * 0.15 in
  _get_retirement_investment_advice user_profile =
  Ok {| years_to_retirement := 65 - a;
        annual_retirement_need := inject_Z inc * 0.8;
        total_retirement_need := inject_Z inc * 0.8 * 25;
        recommended_monthly_savings := saving;
        target_monthly_savings := inject_Z inc / 12 * 0.2;
        maximum_monthly_savings := inject_Z inc / 12 * 0.25;
        current_stocks := Z.max 20 (100 - a);
        current_bonds := Z.min 80 a;
        growth_at_7 := saving * 12 * inject_Z (65 - a) * 1.07 ^ (65 - a);
        growth_at_10 := saving * 12 * inject_Z (65 - a) * 1.10 ^ (65 - a) |}.
Proof.
  intros a inc saving. unfold _get_retirement_investment_advice.
  fold a. fold inc.
  rewrite (pow_nonzero_base 1.07), (pow_nonzero_base 1.10) by discriminate.
  reflexivity.
Qed.


(** X10.  Past 65 the years to retirement are negative, and with a positive
    income both growth projections of the retirement advice come out
    negative; at 65 exactly they are 0. *)
Theorem retirement_growth_past_65 (risk : option string) (a inc : Z) :
  (65 <= a)%Z -> (0 < inc)%Z ->
  exists r,
    _get_retirement_investment_advice
      {| risk_tolerance := risk; age := Some a; income := Some inc |} = Ok r /\
    (a = 65%Z -> growth_at_7 r == 0 /\ growth_at_10 r == 0) /\
    ((65 < a)%Z -> growth_at_7 r < 0 /\ growth_at_10 r < 0).
Proof.
  intros Ha Hinc. rewrite retirement_advice_ok. eexists.
  split; [reflexivity |].
  cbn [growth_at_7 growth_at_10 age income default from_option id].
  assert (Qinc : 0 < inject_Z inc)
    by (change 0 with (inject_Z 0); rewrite <- Zlt_Qlt; exact Hinc).
  assert (Hsave : 0 < inject_Z inc / 12 * 0.15 * 12).
  { assert (E : inject_Z inc / 12 * 0.15 * 12 == 0.15 * inject_Z inc)
      by field.
    rewrite E. lra. }
  pose proof (Qpower_0_lt 1.07 (65 - a) ltac:(reflexivity)) as H7.
  pose proof (Qpower_0_lt 1.10 (65 - a) ltac:(reflexivity)) as H10.
  set (s12 := inject_Z inc / 12 * 0.15 * 12) in *.
  set (g7 := 1.07 ^ (65 - a)) in *. set (g10 := 1.10 ^ (65 - a)) in *.
  split.
  - intros ->. change (inject_Z (65 - 65)) with 0. split; ring.
  - intros Hlt.
    assert (Hy : inject_Z (65 - a) < 0)
      by (change 0 with (inject_Z 0); rewrite <- Zlt_Qlt; lia).
    assert (Hp7 : 0 < s12 * g7) by (apply Qmult_lt_0_compat; assumption).
    assert (Hp10 : 0 < s12 * g10) by (apply Qmult_lt_0_compat; assumption).
    set (y := inject_Z (65 - a)) in *.
    clearbody s12 g7 g10 y. split; nra.
Qed.

Lemma retirement_growth_past_65_witness :
  exists r,
    _get_retirement_investment_advice
      {| risk_tolerance := None; age := Some 70%Z; income := Some 60000%Z |}
    = Ok r /\
    growth_at_7 r < 0.
Proof.
  destruct (retirement_growth_past_65 None 70 60000)
    as (r & Hr & _ & Hneg); [lia | lia |].
  exists r. split; [exact Hr |]. apply Hneg. lia.
Defined.

(** ** Compound interest: the metrics against the chart *)





Lemma calculator_unfolded (p c rate : Q) (years : Z) :
  (0 <= years)%Z ->
  let r := rate / 100 / 12 in
  let n := (years * 12)%Z in
  let fv := future_value p c r n in
  let tc := p + c * inject_Z n in
  compound_interest_calculator p c rate years =
  (ratio ← truediv (fv - tc) tc;
   Ok {| total_future_value := fv;
         total_contributions := tc;
         total_interest := fv - tc;
         return_on_investment := ratio * 100 |}).
Proof.
  intros Hy r n fv tc. unfold compound_interest_calculator.
  fold r. fold n.
  assert (Hn : (0 <= n)%Z) by (subst n; lia).
  rewrite (pow_ok _ _ Hn). run_bind.
  subst fv. unfold future_value.
  destruct (gt r 0) eqn:Hr.
  - apply gt_true in Hr. rewrite truediv_ok by lra. run_bind. reflexivity.
  - run_bind. reflexivity.
Qed.

Lemma year_values_future_value (p c r : Q) (y : Z) :
  (year_values p c r y).2 == future_value p c r (y * 12).
Proof.
  unfold year_values, future_value.
  destruct (y * 12 =? 0)%Z eqn:E.
  - apply Z.eqb_eq in E. rewrite E. cbn [snd].
    change ((1 + r) ^ 0) with 1. change (inject_Z 0) with 0.
    destruct (gt r 0) eqn:Hr.
    + apply gt_true in Hr. field. lra.
    + ring.
  - cbn [snd]. reflexivity.
Qed.

(** X11.  For a period of 0 years or more, the calculator raises
    [ZeroDivisionError] exactly when the total contributions
    [principal + contribution * months] are 0.  When it returns, the future
    value it shows is the last total of the projection chart for the same
    inputs, its total contributions are that sum, and its interest is the
    difference of the two. *)
Theorem calculator_agrees_with_chart
    (principal contribution rate : Q) (years : Z) :
  (0 <= years)%Z ->
  let tc := principal + contribution * inject_Z (years * 12) in
  (tc == 0 /\
   compound_interest_calculator principal contribution rate years
   = Raise ZeroDivisionError) \/
  (~ tc == 0 /\
   exists m d tv,
     compound_interest_calculator principal contribution rate years = Ok m /\
     _create_compound_interest_chart principal contribution rate years
     = Ok d /\
     total_values d !! Z.to_nat years = Some tv /\
     tv == total_future_value m /\
     total_contributions m = tc /\
     total_interest m = total_future_value m - tc).
Proof.
  intros Hy tc. rewrite (calculator_unfolded _ _ _ _ Hy). fold tc.
  destruct (Qeq_dec tc 0) as [Hz | Hnz].
  - left. split; [exact Hz |]. rewrite (truediv_zero _ _ Hz). reflexivity.
  - right. split; [exact Hnz |]. rewrite (truediv_ok _ _ Hnz). run_bind.
    destruct (chart_returns principal contribution rate years) as [d Hd].
    destruct (chart_lookup _ _ _ _ years d Hd ltac:(lia)) as (_ & _ & _ & Ht).
    eexists. exists d. eexists.
    split; [reflexivity |]. split; [exact Hd |]. split; [exact Ht |].
    cbn [total_future_value total_contributions total_interest].
    split; [apply year_values_future_value |]. split; reflexivity.
Qed.

Lemma calculator_agrees_with_chart_witness :
  exists m d tv,
    compound_interest_calculator 1000 100 0 1 = Ok m /\
    _create_compound_interest_chart 1000 100 0 1 = Ok d /\
    total_values d !! 1%nat = Some tv /\
    tv == total_future_value m.
Proof.
  destruct (calculator_agrees_with_chart 1000 100 0 1 ltac:(lia))
    as [[Hz _] | (_ & m & d & tv & Hm & Hd & Ht & He & _)].
  - exfalso. revert Hz. discriminate.
  - exists m, d, tv. repeat split; assumption.
Defined.



(** X13.  At a rate of 0 nothing compounds: for principal and contribution
    of any value and every year [y] from 0 to the term, the chart shows the
    principal unchanged, contributions of [contribution * 12 * y] and a
    total of [principal + contribution * 12 * y]. *)
Theorem chart_at_zero_rate
    (principal contribution rate : Q) (term y : Z) :
  rate == 0 -> (0 <= y <= term)%Z ->
  exists d pv cv tv,
    _create_compound_interest_chart principal contribution rate term = Ok d /\
    principal_values d !! Z.to_nat y = Some pv /\
    contribution_values d !! Z.to_nat y = Some cv /\
    total_values d !! Z.to_nat y = Some tv /\
    pv == principal /\
    cv == contribution * 12 * inject_Z y /\
    tv == principal + contribution * 12 * inject_Z y.
Proof.
  intros Hrate Hy.
  destruct (chart_returns principal contribution rate term) as [d Hd].
  destruct (chart_lookup _ _ _ _ y d Hd Hy) as (_ & Hp & Hc & Ht).
  assert (Hr0 : rate / 100 / 12 == 0) by (rewrite monthly_rate_eq, Hrate; ring).
  assert (Hr : 0 <= rate / 100 / 12) by (rewrite Hr0; lra).
  destruct (year_values_closed_form principal contribution _ y Hr (proj1 Hy))
    as (E1 & _ & E3 & E4).
  set (v := year_values principal contribution (rate / 100 / 12) y) in *.
  assert (Hg : (1 + rate / 100 / 12) ^ (y * 12) == 1).
  { rewrite Hr0. setoid_replace (1 + 0) with 1 using relation Qeq by ring.
    apply Qpower_1. }
  assert (Hm : inject_Z (y * 12) == 12 * inject_Z y).
  { rewrite inject_Z_mult. change (inject_Z 12) with 12. ring. }
  exists d, v.1.1, v.1.2, v.2.
  do 4 (split; [assumption |]).
  assert (F1 : v.1.1 == principal) by (rewrite E1, Hg; ring).
  assert (F2 : v.1.2 == contribution * 12 * inject_Z y)
    by (rewrite (E3 Hr0), Hm; ring).
  split; [exact F1 |]. split; [exact F2 |].
  rewrite E4, F1, F2. reflexivity.
Qed.

Lemma chart_at_zero_rate_witness :
  exists d tv,
    _create_compound_interest_chart 1000 100 0 3 = Ok d /\
    total_values d !! 2%nat = Some tv /\
    tv == 3400.
Proof.
  destruct (chart_at_zero_rate 1000 100 0 3 2)
    as (d & pv & cv & tv & Hd & _ & _ & Ht & _ & _ & E);
    [reflexivity | lia |].
  exists d, tv. split; [exact Hd |]. split; [exact Ht |].
  rewrite E. reflexivity.
Defined.

(** ** Mortgage breakdown chart: the yearly totals *)

Lemma mortgage_months_cons (r P : Q) (month : Z) (rest : list Z)
    (yp yi b : Q) :
  mortgage_months r P (month :: rest) (yp, yi, b) =
  if gt b 0 then
    let principal := if gt (P - b * r) b then b else P - b * r in
    mortgage_months r P rest (yp + principal, yi + b * r, b - principal)
  else mortgage_months r P rest (yp, yi, b).
Proof. reflexivity. Qed.

(** A month moves principal from the balance to the year's total, no more
    than the balance holds. *)
Lemma mortgage_months_conserves (r P : Q) (months : list Z) :
  forall st : Q * Q * Q,
    let st' := mortgage_months r P months st in
    st'.1.1 + st'.2 == st.1.1 + st.2 /\ (0 <= st.2 -> 0 <= st'.2).
Proof.
  induction months as [| month rest IH]; intros [[yp yi] b] st'.
  - subst st'. cbn. split; [reflexivity | tauto].
  - subst st'. rewrite mortgage_months_cons.
    destruct (gt b 0) eqn:Hpos; [| apply IH].
    cbv zeta.
    destruct (IH (yp + (if gt (P - b * r) b then b else P - b * r),
                  yi + b * r,
                  b - (if gt (P - b * r) b then b else P - b * r)))
      as [Hsum Hnn].
    cbn [fst snd] in Hsum, Hnn |- *. split.
    + rewrite Hsum. ring.
    + intros _. apply Hnn.
      destruct (gt (P - b * r) b) eqn:Hclamp.
      * lra.
      * apply gt_false in Hclamp. lra.
Qed.

Lemma mortgage_years_eq (r P : Q) (years : list Z) :
  forall (b : Q) (acc : MortgageChart),
    mortgage_years r P years b acc =
    let ts := year_totals r P (length years) b in
    {| mortgage_years_data := mortgage_years_data acc ++ years;
       principal_payments := principal_payments acc ++ map (fun t => t.1.1) ts;
       interest_payments := interest_payments acc ++ map (fun t => t.1.2) ts;
       remaining_balance := remaining_balance acc ++ map (fun t => t.2) ts |}.
Proof.
  induction years as [| year rest IH]; intros b acc.
  - cbn. rewrite !app_nil_r. now destruct acc.
  - cbn [mortgage_years length year_totals].
    destruct (mortgage_months r P (range 0 12) (0, 0, b)) as [[yp yi] b'].
    rewrite IH. cbv zeta.
    cbn [mortgage_years_data principal_payments interest_payments
         remaining_balance map fst snd].
    now rewrite <- !app_assoc.
Qed.

Lemma mortgage_chart_eq (L rate : Q) (term : Z) (P : Q) :
  monthly_payment_of L rate term = Ok P ->
  _create_mortgage_breakdown_chart L rate term =
  let ts :=
    year_totals (rate / 100 / 12) P (Z.to_nat (term + 1)) L in
  Ok {| mortgage_years_data := range 0 (term + 1);
        principal_payments := map (fun t => t.1.1) ts;
        interest_payments := map (fun t => t.1.2) ts;
        remaining_balance := map (fun t => t.2) ts |}.
Proof.
  intros HP. unfold _create_mortgage_breakdown_chart. rewrite HP. run_bind.
  rewrite mortgage_years_eq, range_length.
  replace (term + 1 - 0)%Z with (term + 1)%Z by lia. reflexivity.
Qed.

Lemma year_totals_length (r P : Q) (n : nat) :
  forall b, length (year_totals r P n b) = n.
Proof.
  induction n as [| n IH]; intros b; [reflexivity |].
  cbn [year_totals length]. now rewrite IH.
Qed.

Lemma year_totals_conserve (r P : Q) (n : nat) :
  forall (b : Q) (j : nat) (t : Q * Q * Q),
    year_totals r P n b !! j = Some t ->
    t.2 == b - Qsum (take (S j) (map (fun t => t.1.1) (year_totals r P n b)))
    /\ (0 <= b -> 0 <= t.2).
Proof.
  induction n as [| n IH]; intros b j t Hj; [discriminate |].
  cbn [year_totals] in Hj |- *.
  destruct (mortgage_months_conserves r P (range 0 12) (0, 0, b))
    as [Hsum Hnn].
  cbn [fst snd] in Hsum, Hnn.
  set (t0 := mortgage_months r P (range 0 12) (0, 0, b)) in *.
  assert (Htake : forall (i : nat) (l : list Q),
            Qsum (take (S i) (t0.1.1 :: l)) = t0.1.1 + Qsum (take i l))
    by reflexivity.
  cbn [map]. rewrite Htake. clearbody t0.
  destruct j as [| j].
  - injection Hj as <-. rewrite take_0. change (Qsum []) with 0. split.
    + lra.
    + exact Hnn.
  - cbn [lookup list_lookup] in Hj.
    destruct (IH t0.2 j t Hj) as [Ht Hnn'].
    split.
    + rewrite Ht. lra.
    + intros Hb. apply Hnn', Hnn, Hb.
Qed.

(** X14.  Whenever the mortgage chart is drawn, each of its four lists has
    one entry per year from 0 to the loan term, [loan_term + 1] in all, and
    what is left after year [y] is the loan amount less the principal paid
    in the years up to [y]; for a loan amount >= 0 no balance in the chart
    is negative. *)
Theorem mortgage_chart_conserves_principal
    (loan_amount interest_rate : Q) (loan_term : Z) (c : MortgageChart) :
  _create_mortgage_breakdown_chart loan_amount interest_rate loan_term
  = Ok c ->
  mortgage_years_data c = range 0 (loan_term + 1) /\
  length (principal_payments c) = Z.to_nat (loan_term + 1) /\
  length (interest_payments c) = Z.to_nat (loan_term + 1) /\
  length (remaining_balance c) = Z.to_nat (loan_term + 1) /\
  (forall (y : nat) (left : Q),
     remaining_balance c !! y = Some left ->
     left == loan_amount - Qsum (take (S y) (principal_payments c))) /\
  (0 <= loan_amount -> Forall (fun left => 0 <= left) (remaining_balance c)).
Proof.
  intros Hc.
  destruct (monthly_payment_of loan_amount interest_rate loan_term)
    as [P | e] eqn:HP.
  2:{ unfold _create_mortgage_breakdown_chart in Hc. rewrite HP in Hc.
      discriminate. }
  rewrite (mortgage_chart_eq _ _ _ P HP) in Hc. cbv zeta in Hc.
  injection Hc as <-.
  cbn [mortgage_years_data principal_payments interest_payments
       remaining_balance].
  rewrite !length_map, year_totals_length.
  do 4 (split; [reflexivity |]). split.
  - intros y left Hy. rewrite list_lookup_fmap in Hy.
    destruct (year_totals _ P _ loan_amount !! y) as [t |] eqn:E;
      [| discriminate].
    cbn in Hy. injection Hy as <-.
    apply (year_totals_conserve _ _ _ _ _ _ E).
  - intros HL. apply Forall_forall. intros left Hleft.
    apply list_elem_of_lookup in Hleft. destruct Hleft as [y Hy].
    rewrite list_lookup_fmap in Hy.
    destruct (year_totals _ P _ loan_amount !! y) as [t |] eqn:E;
      [| discriminate].
    cbn in Hy. injection Hy as <-.
    apply (year_totals_conserve _ _ _ _ _ _ E), HL.
Qed.

Lemma mortgage_chart_conserves_principal_witness :
  exists c,
    _create_mortgage_breakdown_chart 1200 0 1 = Ok c /\
    length (remaining_balance c) = 2%nat /\
    Forall (fun left => 0 <= left) (remaining_balance c).
Proof.
  destruct (monthly_payment_no_interest 1200 0 1) as (HP & _ & _);
    [discriminate | lia |].
  pose proof (mortgage_chart_eq 1200 0 1 _ HP) as Hc.
  eexists. split; [exact Hc |].
  destruct (mortgage_chart_conserves_principal 1200 0 1 _ Hc)
    as (_ & _ & _ & Hlen & _ & Hnn).
  split; [exact Hlen |]. apply Hnn. discriminate.
Defined.

(** ** The level payment in the schedule, the metrics and the chart *)

(** The level payment exists and pays the loan off in exactly [term * 12]
    unclamped periods. *)
Lemma level_payment_ideal (L rate : Q) (term : Z) :
  0 < L -> 0 <= rate -> (1 <= term)%Z ->
  let r := rate / 100 / 12 in
  let n := Z.to_nat (term * 12) in
  exists P,
    monthly_payment_of L rate term = Ok P /\
    (forall k, (k < n)%nat -> 0 < ideal_balance L r P k) /\
    ideal_balance L r P n == 0.
Proof.
  intros HL Hrate Hterm r n.
  pose proof (monthly_rate_nonneg rate Hrate) as Hr0. fold r in Hr0.
  set (N := (term * 12)%Z).
  assert (HN : Z.of_nat n = N) by (subst n; apply Z2Nat.id; subst N; lia).
  destruct (Qlt_le_dec 0 r) as [Hpos | Hzero].
  - destruct (monthly_payment_interest L rate term Hpos Hterm)
      as (HP & HPeq & Hg).
    fold r N in HP, HPeq, Hg.
    set (P := L * (r * (1 + r) ^ N) / ((1 + r) ^ N - 1)) in *.
    exists P. split; [exact HP |].
    assert (Hincr : forall k : nat, (k < n)%nat ->
              (1 + r) ^ Z.of_nat k < (1 + r) ^ Z.of_nat (S k))
      by (intros k _; apply Qpower_lt_compat_l; [lia | lra]).
    assert (Hclosed : forall k : nat, (k <= n)%nat ->
              ideal_balance L r P k * ((1 + r) ^ N - 1)
              == L * ((1 + r) ^ Z.of_nat n - (1 + r) ^ Z.of_nat k)).
    { intros k _. rewrite HN. apply closed_form_interest; assumption. }
    split.
    + intros k Hk.
      apply (ideal_pos L r P ((1 + r) ^ N - 1) n
               (fun k => (1 + r) ^ Z.of_nat k) HL Hg Hincr Hclosed k Hk).
    + apply (ideal_end L r P ((1 + r) ^ N - 1) n
               (fun k => (1 + r) ^ Z.of_nat k) Hg Hclosed).
  - destruct (monthly_payment_no_interest L rate term Hzero Hterm)
      as (HP & HPeq & HNpos).
    fold N in HP, HPeq, HNpos.
    set (P := L / inject_Z N) in *.
    exists P. split; [exact HP |].
    assert (Hincr : forall k : nat, (k < n)%nat ->
              inject_Z (Z.of_nat k) < inject_Z (Z.of_nat (S k)))
      by (intros k _; rewrite <- Zlt_Qlt; lia).
    assert (Hclosed : forall k : nat, (k <= n)%nat ->
              ideal_balance L r P k * inject_Z N
              == L * (inject_Z (Z.of_nat n) - inject_Z (Z.of_nat k))).
    { intros k _. rewrite HN. apply closed_form_no_interest;
        [lra | assumption]. }
    split.
    + intros k Hk.
      apply (ideal_pos L r P (inject_Z N) n
               (fun k => inject_Z (Z.of_nat k)) HL HNpos Hincr Hclosed k Hk).
    + apply (ideal_end L r P (inject_Z N) n
               (fun k => inject_Z (Z.of_nat k)) HNpos Hclosed).
Qed.

Section LevelRows.

  (** A payment [P] that pays the loan [L] off in exactly [n] unclamped
      periods at the monthly rate [r]. *)
Variables (L r P : Q) (n : nat).
Hypothesis ideal_positive :
  forall k, (k < n)%nat -> 0 < ideal_balance L r P k.
Hypothesis ideal_zero : ideal_balance L r P n == 0.

Lemma ideal_nonneg (k : nat) : (k <= n)%nat -> 0 <= ideal_balance L r P k.
Proof.
  apply (B_nonneg n (ideal_balance L r P) ideal_positive ideal_zero).
Qed.

(** No clamp before period [n]: the principal portion fits the balance. *)
Lemma ideal_no_clamp (k : nat) (b : Q) :
  (k < n)%nat -> b == ideal_balance L r P k ->
  gt b 0 = true /\ gt (P - b * r) b = false /\
  b - (P - b * r) == ideal_balance L r P (S k).
Proof.
  intros Hk Hb.
  assert (Hbr : b * r == ideal_balance L r P k * r)
    by (rewrite Hb; reflexivity).
  pose proof (ideal_positive k Hk) as Hpos.
  pose proof (ideal_nonneg (S k) ltac:(lia)) as Hnext.
  cbn [ideal_balance] in Hnext |- *.
  split; [apply gt_true; lra |]. split; [apply gt_false; lra | lra].
Qed.

Lemma schedule_rows_level (months : list Z) :
  length months = n -> (1 <= n)%nat ->
  let s := amortization_loop r months L P in
  length s = n /\
  forall (j : nat) (row : PaymentRecord),
    s !! j = Some row ->
    Payment row = P /\
    Interest row == ideal_balance L r P j * r /\
    Balance row == ideal_balance L r P (S j).
Proof.
  intros Hlen Hn s.
  destruct (loop_follows r P n (ideal_balance L r P)
              ltac:(intros; reflexivity) ideal_positive ideal_zero
              months 0%nat L ltac:(lia)
              ltac:(intros ->; cbn in Hlen; lia) ltac:(reflexivity))
    as (Hl & _ & Hrows).
  fold s in Hl, Hrows. cbn [Nat.add] in Hrows.
  split; [lia |]. intros j row Hj.
  assert (Hjn : (j < n)%nat) by (apply lookup_lt_Some in Hj; lia).
  assert (Hbefore : balance_before L s j == ideal_balance L r P j).
  { destruct j as [| j]; [reflexivity |]. cbn [balance_before].
    destruct (s !! j) as [row' |] eqn:E.
    - apply Hrows, E.
    - apply lookup_ge_None in E. lia. }
  destruct (amortization_loop_rows r P months L j row Hj)
    as (_ & Hi & _ & Hunclamped & _).
  fold s in Hi, Hunclamped.
  destruct (ideal_no_clamp j (balance_before L s j) Hjn Hbefore)
    as (_ & Hno & _).
  rewrite <- Hi in Hno. destruct (Hunclamped Hno) as [_ Hpay].
  split; [exact Hpay |]. split.
  - rewrite Hi, Hbefore. reflexivity.
  - apply Hrows, Hj.
Qed.



End LevelRows.



Lemma payment_sum_constant (s : list PaymentRecord) (P : Q) :
  (forall j row, s !! j = Some row -> Payment row = P) ->
  payment_sum s == inject_Z (Z.of_nat (length s)) * P.
Proof.
  induction s as [| row s IH]; intros H.
  - cbn. ring.
  - change (payment_sum (row :: s)) with (Payment row + payment_sum s).
    rewrite (H 0%nat row eq_refl), IH by (intros j; apply (H (S j))).
    cbn [length]. rewrite Nat2Z.inj_succ, <- Z.add_1_r, inject_Z_plus.
    change (inject_Z 1) with 1. ring.
Qed.

Lemma sums_of_balanced_rows (s : list PaymentRecord) :
  Forall (fun row => Payment row == Principal row + Interest row) s ->
  payment_sum s == principal_sum s + interest_sum s.
Proof.
  induction 1 as [| row s Hrow _ IH].
  - cbn. ring.
  - change (payment_sum (row :: s)) with (Payment row + payment_sum s).
    change (principal_sum (row :: s))
      with (Principal row + principal_sum s).
    change (interest_sum (row :: s)) with (Interest row + interest_sum s).
    rewrite Hrow, IH. ring.
Qed.

Lemma interest_sum_nonneg (s : list PaymentRecord) :
  (forall j row, s !! j = Some row -> 0 <= Interest row) ->
  0 <= interest_sum s.
Proof.
  induction s as [| row s IH]; intros H.
  - cbn. lra.
  - change (interest_sum (row :: s)) with (Interest row + interest_sum s).
    pose proof (H 0%nat row eq_refl).
    pose proof (IH (fun j => H (S j))). lra.
Qed.

(** X15.  For a loan amount > 0, a rate >= 0 and a term >= 1, the metrics
    [loan_calculator] displays agree with the schedule it builds: every row
    of the schedule records the monthly payment shown, the total paid is the
    sum of the payments of the schedule, the total interest is the sum of
    its interest portions, and neither the payment nor the total interest
    is negative. *)
Theorem loan_metrics_match_schedule (loan_amount interest_rate : Q)
    (loan_term : Z) :
  0 < loan_amount -> 0 <= interest_rate -> (1 <= loan_term)%Z ->
  exists m s,
    loan_calculator_metrics loan_amount interest_rate loan_term = Ok m /\
    loan_calculator loan_amount interest_rate loan_term = Ok s /\
    Forall (fun row => Payment row = loan_monthly_payment m) s /\
    payment_sum s == loan_total_paid m /\
    interest_sum s == loan_total_interest m /\
    0 <= loan_total_interest m /\
    0 < loan_monthly_payment m.
Proof.
  intros HL Hrate Hterm.
  destruct (level_payment_ideal loan_amount interest_rate loan_term
              HL Hrate Hterm) as (P & HP & Hpos & Hend).
  pose proof (monthly_rate_nonneg interest_rate Hrate) as Hr.
  set (r := interest_rate / 100 / 12) in *.
  set (N := (loan_term * 12)%Z).
  set (n := Z.to_nat N) in *.
  assert (HN : Z.of_nat n = N) by (subst n; apply Z2Nat.id; subst N; lia).
  assert (Hmonths : length (range 1 (N + 1)) = n).
  { rewrite range_length. subst n. f_equal. lia. }
  destruct (schedule_rows_level loan_amount r P n Hpos Hend
              (range 1 (N + 1)) Hmonths ltac:(subst n N; lia))
    as (Hlen & Hrows).
  destruct (schedule_exact loan_amount interest_rate loan_term
              HL Hrate Hterm) as (s & Hs & _ & Hsum & _).
  assert (Es : s = amortization_loop r (range 1 (N + 1)) loan_amount P).
  { unfold loan_calculator in Hs. rewrite HP in Hs. run_bind.
    injection Hs as <-. reflexivity. }
  rewrite <- Es in Hlen, Hrows.
  pose proof (payment_sum_constant s P (fun j row H => proj1 (Hrows j row H)))
    as Hpay.
  rewrite Hlen, HN in Hpay.
  assert (Hbal : payment_sum s == principal_sum s + interest_sum s).
  { apply sums_of_balanced_rows. rewrite Es.
    apply amortization_loop_balanced. }
  assert (Hint : 0 <= interest_sum s).
  { apply interest_sum_nonneg. intros j row Hj.
    destruct (Hrows j row Hj) as (_ & Hi & _). rewrite Hi.
    apply Qmult_le_0_compat; [| exact Hr].
    apply (ideal_nonneg loan_amount r P n Hpos Hend j).
    apply lookup_lt_Some in Hj. lia. }
  unfold loan_calculator_metrics. rewrite HP. run_bind. fold N.
  eexists. exists s. split; [reflexivity |]. split; [exact Hs |].
  cbn [loan_monthly_payment loan_total_paid loan_total_interest].
  assert (HNq : 1 <= inject_Z N).
  { change 1 with (inject_Z 1). rewrite <- Zle_Qle. subst N. lia. }
  split; [| split; [| split; [| split]]].
  - apply Forall_forall. intros row Hrow.
    apply list_elem_of_lookup in Hrow. destruct Hrow as [j Hj].
    apply (Hrows j row Hj).
  - rewrite Hpay. ring.
  - lra.
  - lra.
  - assert (Hprod : 0 < inject_Z N * P) by lra.
    set (k := inject_Z N) in *. clearbody k. nra.
Qed.

Lemma loan_metrics_match_schedule_witness :
  exists m s,
    loan_calculator_metrics 25000 8.5 5 = Ok m /\
    loan_calculator 25000 8.5 5 = Ok s /\
    payment_sum s == loan_total_paid m /\
    0 <= loan_total_interest m.
Proof.
  destruct (loan_metrics_match_schedule 25000 8.5 5)
    as (m & s & Hm & Hs & _ & Hpaid & _ & Hint & _);
    [reflexivity | discriminate | lia |].
  exists m, s. repeat split; assumption.
Defined.



(** ** Mortgage calculator: the metrics *)

Lemma monthly_payment_sign (L rate : Q) (term : Z) :
  0 <= rate -> (1 <= term)%Z ->
  exists P,
    monthly_payment_of L rate term = Ok P /\
    (L < 0 -> P < 0) /\ (0 < L -> 0 < P).
Proof.
  intros Hrate Hterm.
  pose proof (monthly_rate_nonneg rate Hrate) as Hr0.
  destruct (Qlt_le_dec 0 (rate / 100 / 12)) as [Hpos | Hzero].
  - destruct (monthly_payment_interest L rate term Hpos Hterm)
      as (HP & HPeq & Hg).
    set (r := rate / 100 / 12) in *.
    set (g := (1 + r) ^ (term * 12)) in *.
    eexists. split; [exact HP |].
    set (P := L * (r * g) / (g - 1)) in *.
    assert (Hrg : 0 < r * g) by (apply Qmult_lt_0_compat; lra).
    set (d := g - 1) in *. set (w := r * g) in *.
    clearbody P d w. split; intros HL; nra.
  - destruct (monthly_payment_no_interest L rate term Hzero Hterm)
      as (HP & HPeq & HN).
    eexists. split; [exact HP |].
    set (N := inject_Z (term * 12)) in *. set (P := L / N) in *.
    clearbody P N. split; intros HL; nra.
Qed.

(** X17.  For a rate >= 0 and a term >= 1 the mortgage calculator raises
    [ZeroDivisionError] exactly when the home price is 0.  Otherwise its
    loan amount is the price less the down payment, its payment, total paid
    and total interest are those [loan_calculator] shows for that loan
    amount, and its down payment percentage times the price is 100 times
    the down payment.  Nothing stops a down payment above the price: the
    monthly payment shown is then negative. *)
Theorem mortgage_metrics
    (home_price down_payment interest_rate : Q) (loan_term : Z) :
  0 <= interest_rate -> (1 <= loan_term)%Z ->
  (home_price == 0 ->
   mortgage_calculator home_price down_payment interest_rate loan_term
   = Raise ZeroDivisionError) /\
  (~ home_price == 0 ->
   exists m lm,
     mortgage_calculator home_price down_payment interest_rate loan_term
     = Ok m /\
     loan_calculator_metrics (home_price - down_payment) interest_rate
       loan_term = Ok lm /\
     mortgage_loan_amount m = home_price - down_payment /\
     mortgage_monthly_payment m = loan_monthly_payment lm /\
     mortgage_total_paid m = loan_total_paid lm /\
     mortgage_total_interest m = loan_total_interest lm /\
     down_payment_percent m * home_price == 100 * down_payment /\
     (home_price < down_payment -> mortgage_monthly_payment m < 0)).
Proof.
  intros Hrate Hterm.
  destruct (monthly_payment_sign (home_price - down_payment) interest_rate
              loan_term Hrate Hterm) as (P & HP & Hneg & _).
  unfold mortgage_calculator, loan_calculator_metrics. rewrite HP. run_bind.
  split.
  - intros Hz. rewrite (truediv_zero _ _ Hz). reflexivity.
  - intros Hnz. rewrite (truediv_ok _ _ Hnz). run_bind.
    eexists. eexists. split; [reflexivity |]. split; [reflexivity |].
    cbn [mortgage_loan_amount mortgage_monthly_payment mortgage_total_paid
         mortgage_total_interest down_payment_percent loan_monthly_payment
         loan_total_paid loan_total_interest].
    do 4 (split; [reflexivity |]). split.
    + field. exact Hnz.
    + intros Hlt. apply Hneg. lra.
Qed.

Lemma mortgage_metrics_witness :
  mortgage_calculator 0 0 6.5 30 = Raise ZeroDivisionError /\
  exists m,
    mortgage_calculator 300000 60000 6.5 30 = Ok m /\
    mortgage_loan_amount m = 300000 - 60000 /\
    down_payment_percent m * 300000 == 100 * 60000.
Proof.
  split.
  - apply (mortgage_metrics 0 0 6.5 30); [discriminate | lia | reflexivity].
  - destruct (mortgage_metrics 300000 60000 6.5 30) as [_ H];
      [discriminate | lia |].
    destruct H as (m & lm & Hm & _ & Hl & _ & _ & _ & Hp & _);
      [discriminate |].
    exists m. split; [exact Hm |]. split; [exact Hl | exact Hp].
Defined.

(** ** The chat front end: which handler answers *)

Lemma prefix_app (needle haystack : string) :
  String.prefix needle haystack = true <->
  exists post, haystack = (needle ++ post)%string.
Proof.
  revert haystack. induction needle as [| a needle IH]; intros haystack.
  - split; [intros _; exists haystack; reflexivity |].
    intros _. destruct haystack; reflexivity.
  - destruct haystack as [| b haystack]; cbn [String.prefix].
    + split; [discriminate | intros [post H]; discriminate].
    + destruct (Ascii.ascii_dec a b) as [-> | Hne].
      * rewrite IH. split; intros [post H]; exists post.
        -- rewrite H. reflexivity.
        -- change (String b needle +:+ post)
             with (String b (needle +:+ post)) in H.
           congruence.
      * split; [discriminate | intros [post H]].
        change (String a needle +:+ post)
          with (String a (needle +:+ post)) in H.
        congruence.
Qed.

(** [contains] is Python's [in]: the needle occurs somewhere in the
    haystack. *)
Lemma contains_substring (needle haystack : string) :
  contains needle haystack = true <->
  exists pre post, haystack = (pre ++ needle ++ post)%string.
Proof.
  induction haystack as [| b haystack IH].
  - cbn [contains]. rewrite orb_false_r, prefix_app. split.
    + intros [post H]. exists ""%string, post. exact H.
    + intros (pre & post & H). destruct pre as [| c pre]; [| discriminate].
      exists post. exact H.
  - cbn [contains]. rewrite orb_true_iff, prefix_app, IH. split.
    + intros [[post H] | (pre & post & H)].
      * exists ""%string, post. exact H.
      * exists (String b pre), post. rewrite H. reflexivity.
    + intros (pre & post & H). destruct pre as [| c pre].
      * left. exists post. exact H.
      * right. exists pre, post.
        change (String c pre +:+ needle +:+ post)
          with (String c (pre +:+ needle +:+ post)) in H.
        congruence.
Qed.

Lemma any_in_false (words : list string) (text word : string) :
  any_in words text = false -> In word words -> contains word text = false.
Proof.
  unfold any_in. intros H Hin.
  destruct (contains word text) eqn:E; [| reflexivity].
  assert (Hex : existsb (fun w => contains w text) words = true).
  { apply existsb_exists. exists word. split; assumption. }
  congruence.
Qed.

(** X18.  Whatever the user types, [generate_response] never reaches the
    loan calculator: a message with "loan" in it is answered by the debt
    handler (or by a handler tested before it), so the "loan" branch of
    [handle_calculation_request] cannot be taken from the chat. *)
Theorem chat_never_opens_loan_calculator
    (lower : string -> string) (user_input : string) :
  generate_response lower user_input <> CalculationRequest LoanCalculator.
Proof.
  unfold generate_response. cbv zeta.
  destruct (any_in ["budget"; "expense"; "spending"]%string _);
    [discriminate |].
  destruct (any_in
              ["invest"; "investment"; "portfolio"; "stock"; "bond"]%string _);
    [discriminate |].
  destruct (any_in ["save"; "saving"; "emergency fund"]%string _);
    [discriminate |].
  destruct (any_in ["debt"; "loan"; "credit"; "pay off"]%string
              (lower user_input)) eqn:Hdebt; [discriminate |].
  destruct (any_in ["retirement"; "401k"; "ira"; "pension"]%string _);
    [discriminate |].
  destruct (any_in ["calculate"; "calculator"; "compute"]%string _);
    [| discriminate].
  assert (Hloan : contains "loan" (lower user_input) = false).
  { apply (any_in_false _ _ _ Hdebt). cbn. tauto. }
  unfold handle_calculation_request. rewrite Hloan.
  destruct (contains "compound interest" _); [discriminate |].
  destruct (contains "mortgage" _); discriminate.
Qed.

(** X19.  [handle_savings_question] answers a message mentioning
    "emergency fund" with three times the income, whatever the goal.  Any
    other message gets the progress towards the savings goal as a
    percentage, [current_savings / goal * 100] with 0 for an absent
    [current_savings]; with a goal of 0, which the profile form accepts,
    this raises [ZeroDivisionError]. *)
Theorem savings_question_answers
    (lower : string -> string) (user_input : string) (profile : Profile) :
  let saved := default 0%Z (profile_current_savings profile) in
  let goal := profile_savings_goal profile in
  (contains "emergency fund" (lower user_input) = true ->
   handle_savings_question lower user_input profile
   = Ok (EmergencyFund (profile_income profile) (profile_income profile * 3)
           saved goal)) /\
  (contains "emergency fund" (lower user_input) = false ->
   (goal = 0%Z ->
    handle_savings_question lower user_input profile
    = Raise ZeroDivisionError) /\
   (goal <> 0%Z ->
    exists percent,
      handle_savings_question lower user_input profile
      = Ok (SavingsProgress saved goal percent) /\
      percent * inject_Z goal == 100 * inject_Z saved)).
Proof.
  intros saved goal. unfold handle_savings_question. fold saved. fold goal.
  split.
  - intros ->. reflexivity.
  - intros ->. split.
    + intros ->. reflexivity.
    + intros Hgoal.
      assert (Hnz : ~ inject_Z goal == 0).
      { intros H. apply Hgoal. change 0 with (inject_Z 0) in H.
        apply (inject_Z_injective goal 0), H. }
      rewrite (truediv_ok _ _ Hnz). run_bind.
      eexists. split; [reflexivity |]. field. exact Hnz.
Qed.

Lemma savings_question_answers_witness :
  handle_savings_question (fun text => text) "how much should i save"
    {| profile_age := 25; profile_income := 50000;
       profile_savings_goal := 0;
       profile_risk_tolerance := "moderate";
       profile_current_savings := None |}
  = Raise ZeroDivisionError.
Proof.
  destruct (savings_question_answers (fun text => text)
              "how much should i save"
              {| profile_age := 25; profile_income := 50000;
                 profile_savings_goal := 0;
                 profile_risk_tolerance := "moderate";
                 profile_current_savings := None |}) as [_ Hother].
  destruct (Hother eq_refl) as [Hzero _]. exact (Hzero eq_refl).
Defined.

(** X20.  The two retirement answers agree: for the same age and income,
    [handle_retirement_question] of the chat and
    [_get_retirement_investment_advice] of the advisor give the same years
    to retirement, the same annual need (80 percent of the income) and the
    same goal (25 times that, 20 times the income). *)
Theorem retirement_answers_agree (profile : Profile) (risk : option string) :
  let plan := handle_retirement_question profile in
  exists advice,
    _get_retirement_investment_advice
      {| risk_tolerance := risk;
         age := Some (profile_age profile);
         income := Some (profile_income profile) |} = Ok advice /\
    years_to_retirement advice = plan_years_to_retirement plan /\
    annual_retirement_need advice = plan_annual_need plan /\
    total_retirement_need advice = plan_total_need plan /\
    plan_total_need plan == 20 * inject_Z (profile_income profile).
Proof.
  intros plan. rewrite retirement_advice_ok. eexists.
  split; [reflexivity |].
  subst plan. unfold handle_retirement_question.
  cbn [years_to_retirement annual_retirement_need total_retirement_need
       plan_years_to_retirement plan_annual_need plan_total_need
       age income default from_option id].
  do 3 (split; [reflexivity |]). field.
Qed.

(** ** Amortization schedule: any payment *)

Lemma balance_before_cons (b : Q) (row0 : PaymentRecord)
    (tail : list PaymentRecord) :
  balance_before b (row0 :: tail) (S (length tail))
  = balance_before (Balance row0) tail (length tail).
Proof. destruct tail as [| row1 tail]; reflexivity. Qed.

Lemma amortization_loop_conserves (r P : Q) (months : list Z) :
  forall b : Q,
    0 <= b ->
    let s := amortization_loop r months b P in
    Forall (fun row => 0 <= Balance row) s /\
    principal_sum s == b - balance_before b s (length s).
Proof.
  induction months as [| month rest IH]; intros b Hb s.
  - subst s. cbn. split; [constructor | ring].
  - destruct (amortization_loop_tail r month rest b P)
      as (row0 & Hs & _ & _ & Hc & Hn & Hbal).
    subst s. rewrite Hs.
    assert (Hrow0 : 0 <= Balance row0).
    { rewrite Hbal. destruct (gt (P - b * r) b) eqn:Hclamp.
      - destruct (Hc eq_refl) as [-> _]. lra.
      - destruct (Hn eq_refl) as [-> _]. apply gt_false in Hclamp. lra. }
    destruct (le (Balance row0) 0).
    + split; [repeat constructor; exact Hrow0 |].
      cbn [principal_sum fold_right length balance_before lookup
           list_lookup].
      rewrite Hbal. ring.
    + destruct (IH (Balance row0) Hrow0) as [Hnn Hsum].
      split; [constructor; assumption |].
      change (principal_sum (row0 :: ?t))
        with (Principal row0 + principal_sum t).
      cbn [length]. rewrite balance_before_cons, Hsum, Hbal. ring.
Qed.

(** X21.  Whatever monthly payment the schedule is built with, for a loan
    amount >= 0 no balance in it is negative, and the principal portions
    add up to the loan amount less the balance of the last row: the clamp
    keeps the schedule from paying back more than was lent. *)
Theorem schedule_never_overpays
    (loan_amount interest_rate : Q) (loan_term : Z) (monthly_payment : Q) :
  0 <= loan_amount ->
  let s :=
    _create_amortization_schedule
      loan_amount interest_rate loan_term monthly_payment in
  Forall (fun row => 0 <= Balance row) s /\
  principal_sum s == loan_amount - balance_before loan_amount s (length s) /\
  principal_sum s <= loan_amount.
Proof.
  intros HL s.
  destruct (amortization_loop_conserves (interest_rate / 100 / 12)
              monthly_payment (range 1 (loan_term * 12 + 1)) loan_amount HL)
    as [Hnn Hsum].
  fold (_create_amortization_schedule
          loan_amount interest_rate loan_term monthly_payment) in Hnn, Hsum.
  fold s in Hnn, Hsum.
  split; [exact Hnn |]. split; [exact Hsum |].
  rewrite Hsum.
  assert (Hlast : 0 <= balance_before loan_amount s (length s)).
  { destruct (length s) as [| k] eqn:E; cbn [balance_before]; [exact HL |].
    destruct (s !! k) as [row |] eqn:Ek; [| lra].
    apply (proj1 (Forall_forall _ _) Hnn row).
    apply list_elem_of_lookup. exists k. exact Ek. }
  lra.
Qed.

Lemma schedule_never_overpays_witness :
  principal_sum (_create_amortization_schedule 1000 12 1 5000) <= 1000.
Proof.
  apply (schedule_never_overpays 1000 12 1 5000). discriminate.
Defined.

(** ** The dashboards of the side bar *)

(** X22.  The investment dashboard charts the base allocation of the risk
    profile and leaves the age out: for each of the three risk tolerances
    the advisor's recommendation for the same profile is the dashboard's
    allocation with the age adjustment moved from bonds to stocks, so the
    two agree exactly for the ages 30 to 49 and are 10 points apart at
    every other age. *)
Theorem dashboard_leaves_age_out (profile : Profile) :
  In (profile_risk_tolerance profile)
     ["conservative"; "moderate"; "aggressive"]%string ->
  let d := show_investment_dashboard profile in
  let a := profile_age profile in
  exists alloc,
    _get_portfolio_recommendation
      {| risk_tolerance := Some (profile_risk_tolerance profile);
         age := Some a;
         income := Some (profile_income profile) |} = Ok alloc /\
    stocks alloc = (Stocks d + age_adjustment a)%Z /\
    bonds alloc = (Bonds d - age_adjustment a)%Z /\
    cash alloc = Cash d /\
    (Stocks d + Bonds d + Cash d = 100)%Z /\
    (stocks alloc = Stocks d /\ bonds alloc = Bonds d
     <-> (30 <= a < 50)%Z).
Proof.
  intros Hrisk d a. subst d. unfold show_investment_dashboard. cbv zeta.
  assert (Hadj : (age_adjustment a = 0 <-> 30 <= a < 50)%Z).
  { unfold age_adjustment.
    destruct (Z.ltb_spec a 30); [lia |]. destruct (Z.ltb_spec a 50); lia. }
  assert (Hrange : (-10 <= age_adjustment a <= 10)%Z).
  { unfold age_adjustment.
    destruct (a <? 30)%Z; [lia |]. destruct (a <? 50)%Z; lia. }
  destruct Hrisk as [<- | [<- | [<- | []]]];
    (erewrite recommendation_of_base by reflexivity);
    eexists; (split; [reflexivity |]);
    cbn [stocks bonds cash String.eqb Ascii.eqb Bool.eqb Stocks Bonds Cash];
    lia.
Qed.

Lemma dashboard_leaves_age_out_witness :
  exists alloc,
    _get_portfolio_recommendation
      {| risk_tolerance := Some "moderate"%string;
         age := Some 25%Z;
         income := Some 50000%Z |} = Ok alloc /\
    stocks alloc = 60%Z.
Proof.
  destruct (dashboard_leaves_age_out
              {| profile_age := 25; profile_income := 50000;
                 profile_savings_goal := 100000;
                 profile_risk_tolerance := "moderate";
                 profile_current_savings := None |})
    as (alloc & Ha & Hs & _); [right; left; reflexivity |].
  exists alloc. split; [exact Ha | exact Hs].
Defined.

(** X23.  The savings progress page raises [ZeroDivisionError] for a
    savings goal of 0.  For any other goal the progress it shows is at most
    1, and below a positive goal it is the share of the goal already saved;
    with a positive income the months to the goal times the monthly savings
    target, a fifth of a twelfth of the income, make up what is still
    missing, and with no income the months are infinite. *)
Theorem savings_progress_view (profile : Profile) :
  let saved := default 0%Z (profile_current_savings profile) in
  let goal := profile_savings_goal profile in
  let inc := profile_income profile in
  (goal = 0%Z -> show_savings_progress profile = Raise ZeroDivisionError) /\
  (goal <> 0%Z ->
   exists v,
     show_savings_progress profile = Ok v /\
     progress v <= 1 /\
     monthly_savings_target v * 60 == inject_Z inc /\
     ((0 <= saved <= goal)%Z ->
      0 <= progress v /\ progress v * inject_Z goal == inject_Z saved) /\
     ((0 < inc)%Z ->
      exists months,
        months_to_goal v = MonthsToGo months /\
        months * monthly_savings_target v == inject_Z (goal - saved)) /\
     ((inc <= 0)%Z -> months_to_goal v = MonthsInf)).
Proof.
  intros saved goal inc. unfold show_savings_progress.
  fold saved. fold goal. fold inc. split.
  - intros ->. reflexivity.
  - intros Hgoal.
    assert (Hnz : ~ inject_Z goal == 0).
    { intros H. apply Hgoal. change 0 with (inject_Z 0) in H.
      apply (inject_Z_injective goal 0), H. }
    rewrite (truediv_ok _ _ Hnz). run_bind.
    set (ratio := inject_Z saved / inject_Z goal).
    set (target := inject_Z inc / 12 * 0.2).
    assert (Hratio : ratio * inject_Z goal == inject_Z saved)
      by (subst ratio; field; exact Hnz).
    assert (Htarget : target * 60 == inject_Z inc) by (subst target; field).
    assert (Hprogress : (if gt ratio 1 then 1 else ratio) <= 1).
    { destruct (gt ratio 1) eqn:E; [lra |]. apply gt_false in E. exact E. }
    assert (Hshare : (0 <= saved <= goal)%Z ->
              0 <= (if gt ratio 1 then 1 else ratio) /\
              (if gt ratio 1 then 1 else ratio) * inject_Z goal
              == inject_Z saved).
    { intros [Hs Hg].
      assert (Hs' : 0 <= inject_Z saved)
        by (change 0 with (inject_Z 0); rewrite <- Zle_Qle; exact Hs).
      assert (Hg' : inject_Z saved <= inject_Z goal)
        by (rewrite <- Zle_Qle; exact Hg).
      assert (Hpos : 0 < inject_Z goal) by lra.
      set (g := inject_Z goal) in *. set (c := inject_Z saved) in *.
      clearbody ratio g c.
      assert (Hle : ratio <= 1) by nra.
      assert (Hno : gt ratio 1 = false) by (apply gt_false; exact Hle).
      rewrite Hno. split; [nra | exact Hratio]. }
    destruct (Z.lt_ge_cases 0 inc) as [Hinc | Hinc].
    + assert (Hinc' : 0 < inject_Z inc)
        by (change 0 with (inject_Z 0); rewrite <- Zlt_Qlt; exact Hinc).
      assert (Hpos : 0 < target) by lra.
      assert (Hyes : gt target 0 = true) by (apply gt_true; exact Hpos).
      assert (Htnz : ~ target == 0) by lra.
      rewrite Hyes, (truediv_ok _ _ Htnz). run_bind.
      eexists. split; [reflexivity |].
      cbn [progress months_to_goal monthly_savings_target].
      split; [exact Hprogress |]. split; [exact Htarget |].
      split; [exact Hshare |]. split.
      * intros _. eexists. split; [reflexivity |]. field. exact Htnz.
      * intros H. lia.
    + assert (Hinc' : inject_Z inc <= 0)
        by (change 0 with (inject_Z 0); rewrite <- Zle_Qle; exact Hinc).
      assert (Hno : gt target 0 = false) by (apply gt_false; lra).
      rewrite Hno. run_bind.
      eexists. split; [reflexivity |].
      cbn [progress months_to_goal monthly_savings_target].
      split; [exact Hprogress |]. split; [exact Htarget |].
      split; [exact Hshare |]. split.
      * intros H. lia.
      * intros _. reflexivity.
Qed.

Lemma savings_progress_view_witness :
  show_savings_progress
    {| profile_age := 25; profile_income := 50000;
       profile_savings_goal := 0;
       profile_risk_tolerance := "moderate";
       profile_current_savings := None |}
  = Raise ZeroDivisionError.
Proof.
  destruct (savings_progress_view
              {| profile_age := 25; profile_income := 50000;
                 profile_savings_goal := 0;
                 profile_risk_tolerance := "moderate";
                 profile_current_savings := None |}) as [Hzero _].
  exact (Hzero eq_refl).
Defined.
